(** * text_renderer: the rendering pipeline of [textrenderer/renderer.py]

    A shallow embedding of the [Renderer] class.  Python integers are [Z],
    Python and numpy floats are exact rationals [Q] (binary rounding error is
    outside the model), exceptions are values of [exn], and the two global
    random generators the module draws from (Python's [random] and
    [numpy.random]) are explicit tapes threaded through a state-and-error
    monad.  Pixel computations of the imaging libraries (numpy, OpenCV, PIL)
    are an interface with the shape laws the pipeline relies on. *)

From Stdlib Require Import ZArith QArith Qround Qminmax List String Ascii Bool Lia Lqa.
Import ListNotations.
Local Open Scope Z_scope.

Set Implicit Arguments.

(* ================================================================== *)
(** * Python values *)
(* ================================================================== *)

Module Py.

(** The exceptions the module can raise, directly or through a library. *)
Inductive exn : Type :=
| ZeroDivisionError
| ValueError
| IndexError
| KeyError
| AssertionError
| cv2_error
| Exception.

(** [a / b] on numbers: true division, [ZeroDivisionError] on a zero divisor. *)
Definition truediv (a b : Q) : exn + Q :=
  if Qeq_bool b 0 then inl ZeroDivisionError else inr (a / b)%Q.

(** [int(x)] on a float: truncation toward zero. *)
Definition int (x : Q) : Z := Z.quot (Qnum x) (Zpos (Qden x)).

(** [math.floor] and [math.ceil]. *)
Definition math_floor (x : Q) : Z := Qfloor x.
Definition math_ceil (x : Q) : Z := Qceiling x.

(** Rounding to the nearest integer, ties to the even one: [numpy.around],
    Python's [round] and OpenCV's [cvRound] all round this way. *)
Definition round_half_even (x : Q) : Z :=
  let f := Qfloor x in
  match ((x - inject_Z f) ?= (1 # 2))%Q with
  | Lt => f
  | Gt => f + 1
  | Eq => if Z.even f then f else f + 1
  end.

Definition np_around (x : Q) : Z := round_half_even x.
Definition round (x : Q) : Z := round_half_even x.
Definition cvRound (x : Q) : Z := round_half_even x.

(** [max(a, b)]: the first argument unless the second is strictly larger. *)
Definition max (a b : Q) : Q := if Qlt_le_dec a b then b else a.

(** Bounds of the slice [start:stop] on a sequence of length [n]: negative
    indices count from the end, and both ends are clamped to [0, n]. *)
Definition slice_index (n i : Z) : Z :=
  if i <? 0 then Z.max (i + n) 0 else Z.min i n.

Definition slice_len (n start stop : Z) : Z :=
  Z.max 0 (slice_index n stop - slice_index n start).

(** [s[:stop]] on a string. *)
Definition str_prefix (s : string) (stop : Z) : string :=
  substring 0 (Z.to_nat (slice_index (Z.of_nat (String.length s)) stop)) s.

(** The characters of a string, each as a one-character string, as a
    [for c in word] loop sees them. *)
Fixpoint chars (s : string) : list string :=
  match s with
  | EmptyString => []
  | String c s' => String c EmptyString :: chars s'
  end.

End Py.

Import Py.

(* ================================================================== *)
(** * Random sources, exceptions: the monad of the pipeline *)
(* ================================================================== *)

(** The state a call can change: the raw words still to come out of
    Python's [random] generator and out of [numpy.random], and the samples
    the corpus will hand out next.  A tape that has run dry keeps giving 0. *)
Record World : Type := mkWorld {
  py_tape : list Z;
  np_tape : list Z;
  corpus_feed : list string
}.

Definition M (A : Type) : Type := World -> (exn + A) * World.

Definition ret {A} (a : A) : M A := fun w => (inr a, w).

Definition raise {A} (e : exn) : M A := fun w => (inl e, w).

Definition bind {A B} (m : M A) (k : A -> M B) : M B :=
  fun w =>
    match m w with
    | (inr a, w') => k a w'
    | (inl e, w') => (inl e, w')
    end.

Definition lift {A} (r : exn + A) : M A := fun w => (r, w).

Declare Scope py_scope.
Delimit Scope py_scope with py.
Notation "x <- m ;; k" := (bind m (fun x => k))
  (at level 61, m at next level, right associativity) : py_scope.
Notation "' pat <- m ;; k" := (bind m (fun x => match x with pat => k end))
  (at level 61, pat pattern, m at next level, right associativity) : py_scope.
Local Open Scope py_scope.

(** [assert cond]. *)
Definition py_assert (cond : bool) : M unit :=
  if cond then ret tt else raise AssertionError.

(** The next raw word of Python's generator. *)
Definition py_next : M Z :=
  fun w =>
    match py_tape w with
    | [] => (inr 0, w)
    | r :: t => (inr r, mkWorld t (np_tape w) (corpus_feed w))
    end.

(** The next raw word of numpy's generator. *)
Definition np_next : M Z :=
  fun w =>
    match np_tape w with
    | [] => (inr 0, w)
    | r :: t => (inr r, mkWorld (py_tape w) t (corpus_feed w))
    end.

(** [random.randint(a, b)]: an integer of the closed range [a, b];
    [ValueError] on an empty range. *)
Definition random_randint (a b : Z) : M Z :=
  if b <? a then raise ValueError
  else r <- py_next ;; ret (a + r mod (b - a + 1)).

(** [random.choice(seq)]; [IndexError] on an empty sequence. *)
Definition random_choice {A} (seq : list A) : M A :=
  match seq with
  | [] => raise IndexError
  | x :: _ => r <- py_next ;; ret (nth (Z.to_nat (r mod Z.of_nat (List.length seq))) seq x)
  end.

(** A raw word as a float of [0, 1): 53 bits over [2^53]. *)
Definition unit_float (r : Z) : Q := (r mod 2 ^ 53) # (2 ^ 53).

(** [random.uniform(a, b)] is [a + (b - a) * random()]. *)
Definition random_uniform (a b : Q) : M Q :=
  r <- py_next ;; ret (a + (b - a) * unit_float r)%Q.

(** [numpy.random.randint(low, high)]: an integer of the half-open range
    [low, high); [ValueError] unless [low < high]. *)
Definition np_random_randint (low high : Z) : M Z :=
  if high <=? low then raise ValueError
  else r <- np_next ;; ret (low + r mod (high - low)).

(** [numpy.random.uniform(low, high)]. *)
Definition np_random_uniform (low high : Q) : M Q :=
  r <- np_next ;; ret (low + (high - low) * unit_float r)%Q.

(** [numpy.random.choice(seq)]. *)
Definition np_random_choice {A} (seq : list A) : M A :=
  match seq with
  | [] => raise ValueError
  | x :: _ => r <- np_next ;; ret (nth (Z.to_nat (r mod Z.of_nat (List.length seq))) seq x)
  end.

(** [tenacity.retry] with no arguments: call again on every exception.  The
    loop is unbounded in Python; here it takes a number of further attempts. *)
Fixpoint retry {A} (attempts : nat) (f : M A) : M A :=
  fun w =>
    match f w with
    | (inr a, w') => (inr a, w')
    | (inl e, w') =>
        match attempts with
        | O => (inl e, w')
        | S n => retry n f w'
        end
    end.

(* ================================================================== *)
(** * The imaging libraries: numpy, OpenCV, PIL *)
(* ================================================================== *)

Inductive interpolation : Type := INTER_LINEAR | INTER_CUBIC | INTER_AREA.
Inductive clone_flag : Type := NORMAL_CLONE | MIXED_CLONE | MONOCHROME_TRANSFER.
Inductive color_code : Type := COLOR_GRAY2BGR | COLOR_BGR2GRAY.

(** What the pipeline uses of its imaging libraries.  A raster has a
    [shape] of (rows, columns); the operations are the pixel computations,
    and the laws say how they act on shapes and on an all-black raster. *)
Class Imaging : Type := {
  image : Type;
  font : Type;
  (* numpy *)
  shape : image -> Z * Z;
  np_pixel : image -> Z -> Z -> option Q;
  np_slice : image -> Z -> Z -> Z -> Z -> image;
  np_mean : image -> Q;
  np_clip : image -> Q -> Q -> image;
  np_rsub : Q -> image -> image;
  np_scale_add : Q -> image -> Q -> image;
  np_uint8 : image -> image;
  np_float32 : image -> image;
  np_full : Z -> Z -> Q -> image;
  np_array : Z -> Z -> list Z -> image;
  (* OpenCV *)
  resample : image -> Z -> Z -> interpolation -> image;
  cv2_GaussianBlur : image -> Z -> Z -> image;
  cv2_blur : image -> Z -> image;
  cv2_cvtColor : image -> color_code -> image;
  cv2_seamlessClone : image -> image -> image -> Z * Z -> clone_flag -> image;
  (* PIL *)
  ImageFont_truetype : string -> Z -> font;
  font_getsize : font -> string -> Z * Z;
  font_getoffset : font -> string -> Z * Z;
  draw_text : image -> Z * Z -> string -> Z -> font -> image;
  (* shapes *)
  shape_nonneg : forall img, 0 <= fst (shape img) /\ 0 <= snd (shape img);
  shape_np_slice : forall img y0 y1 x0 x1,
    shape (np_slice img y0 y1 x0 x1) =
    (slice_len (fst (shape img)) y0 y1, slice_len (snd (shape img)) x0 x1);
  shape_resample : forall img w h i,
    0 < w -> 0 < h -> shape (resample img w h i) = (h, w);
  shape_GaussianBlur : forall img k s, shape (cv2_GaussianBlur img k s) = shape img;
  shape_np_clip : forall img lo hi, shape (np_clip img lo hi) = shape img;
  shape_np_scale_add : forall a img b, shape (np_scale_add a img b) = shape img;
  shape_np_uint8 : forall img, shape (np_uint8 img) = shape img;
  (* pixels *)
  pixel_np_rsub : forall c img i j,
    np_pixel (np_rsub c img) i j = option_map (fun v => c - v)%Q (np_pixel img i j);
  pixel_in_range : forall img i j,
    0 <= i < fst (shape img) -> 0 <= j < snd (shape img) ->
    exists v, np_pixel img i j = Some v;
  black_np_slice : forall img y0 y1 x0 x1,
    (forall i j v, np_pixel img i j = Some v -> v == 0)%Q ->
    (forall i j v, np_pixel (np_slice img y0 y1 x0 x1) i j = Some v -> v == 0)%Q;
  black_resample : forall img w h it,
    0 < fst (shape img) -> 0 < snd (shape img) ->
    (forall i j v, np_pixel img i j = Some v -> v == 0)%Q ->
    (forall i j v, np_pixel (resample img w h it) i j = Some v -> v == 0)%Q;
  black_GaussianBlur : forall img k s,
    (forall i j v, np_pixel img i j = Some v -> v == 0)%Q ->
    (forall i j v, np_pixel (cv2_GaussianBlur img k s) i j = Some v -> v == 0)%Q;
  black_np_mean : forall img,
    (forall i j v, np_pixel img i j = Some v -> v == 0)%Q ->
    0 < fst (shape img) -> 0 < snd (shape img) -> (np_mean img == 0)%Q
}.

Section Rasters.
Context {L : Imaging}.

Definition rows (img : image) : Z := fst (shape img).
Definition cols (img : image) : Z := snd (shape img).

(** A raster with no pixel. *)
Definition is_empty (img : image) : bool := (rows img <=? 0) || (cols img <=? 0).

(** Every pixel is 0. *)
Definition black (img : image) : Prop :=
  forall i j v, np_pixel img i j = Some v -> (v == 0)%Q.

(** [cv2.resize(src, dsize, interpolation=...)] with [dsize = (width, height)]:
    OpenCV refuses an empty source and an empty target size. *)
Definition cv2_resize (src : image) (dsize : Z * Z) (interp : interpolation)
  : exn + image :=
  let '(width, height) := dsize in
  if is_empty src || (width <=? 0) || (height <=? 0) then inl cv2_error
  else inr (resample src width height interp).

(** [cv2.resize(src, None, fx=fx, fy=fy)]: the target size is the source
    size scaled and rounded. *)
Definition cv2_resize_scaled (src : image) (fx fy : Q) : exn + image :=
  if is_empty src || Qle_bool fx 0 || Qle_bool fy 0 then inl cv2_error
  else
    cv2_resize src (cvRound (inject_Z (cols src) * fx), cvRound (inject_Z (rows src) * fy))
               INTER_LINEAR.

(** [np.mean(a)] as a float: the mean of an empty array is nan, here [None]. *)
Definition np_mean_float (a : image) : option Q :=
  if is_empty a then None else Some (np_mean a).

(** [int(x)] on a float that may be nan: [int] refuses nan with [ValueError]. *)
Definition int_of_float (x : option Q) : exn + Z :=
  match x with
  | None => inl ValueError
  | Some q => inr (Py.int q)
  end.

End Rasters.

(** An ordered quadrilateral: left-top, right-top, right-bottom, left-bottom. *)
Record Quad : Type := mkQuad {
  left_top : Q * Q;
  right_top : Q * Q;
  right_bottom : Q * Q;
  left_bottom : Q * Q
}.

Definition quad_points (q : Quad) : list (Q * Q) :=
  [left_top q; right_top q; right_bottom q; left_bottom q].

Definition Qmin_list (x : Q) (l : list Q) : Q := fold_left Qmin l x.
Definition Qmax_list (x : Q) (l : list Q) : Q := fold_left Qmax l x.

(** [cv2.boundingRect] of four points: [(x, y, width, height)] of the
    upright box from the floor of the smallest to the floor of the largest
    coordinate, both included. *)
Definition cv2_boundingRect (pnts : Quad) : Z * Z * Z * Z :=
  let xs := map fst (quad_points pnts) in
  let ys := map snd (quad_points pnts) in
  let xmin := Qfloor (Qmin_list (fst (left_top pnts)) xs) in
  let ymin := Qfloor (Qmin_list (snd (left_top pnts)) ys) in
  let xmax := Qfloor (Qmax_list (fst (left_top pnts)) xs) in
  let ymax := Qfloor (Qmax_list (snd (left_top pnts)) ys) in
  (xmin, ymin, xmax - xmin + 1, ymax - ymin + 1).

(* ================================================================== *)
(** * Configuration and collaborators *)
(* ================================================================== *)

(** One optional stage of the configuration tree: [cfg.blur], [cfg.noise], ... *)
Record CfgItem : Type := mkCfgItem {
  enable : bool;
  fraction : Q
}.

(** The configuration tree, with the entries the renderer reads. *)
Record Config : Type := mkConfig {
  cfg_line : CfgItem;
  cfg_noise : CfgItem;
  cfg_blur : CfgItem;
  cfg_prydown : CfgItem;
  cfg_prydown_max_scale : Q;
  cfg_reverse_color : CfgItem;
  cfg_random_space : CfgItem;
  cfg_random_space_min : Q;
  cfg_random_space_max : Q;
  cfg_seamless_clone : CfgItem;
  cfg_img_bg : CfgItem;
  cfg_perspective_max_x : Q;
  cfg_perspective_max_y : Q;
  cfg_perspective_max_z : Q;
  cfg_font_size_min : Z;
  cfg_font_size_max : Z
}.

(** The corpus object handed to the renderer. *)
Record Corpus : Type := mkCorpus {
  get_sample : M string;
  chars_file : string
}.

(** The modules of the repository the renderer imports: [libs.math_utils],
    [libs.utils], [libs.font_utils], [textrenderer.liner] and
    [textrenderer.noiser].  The renderer is stated for any implementation of
    them. *)
Class Collaborators {L : Imaging} : Type := {
  matrix : Type;
  transformer : Type;
  (* libs.math_utils *)
  cliped_rand_norm : Q -> Q -> M Q;
  PerspectiveTransform : Q -> Q -> Q -> Q -> Q -> transformer;
  transform_image : transformer -> image -> bool -> image * matrix * Quad;
  transform_pnts : transformer -> Quad -> matrix -> Quad;
  (* libs.utils *)
  prob : Q -> M bool;
  apply : CfgItem -> M bool;
  draw_box : image -> Quad -> Z * Z * Z -> image;
  draw_bbox : image -> Z * Z * Z * Z -> Z * Z * Z -> image;
  (* libs.font_utils *)
  get_fonts_chars : list string -> string -> list (string * list string);
  (* textrenderer.liner, textrenderer.noiser: [Liner(cfg).apply], [Noiser(cfg).apply] *)
  liner_apply : Config -> image -> Quad -> Z -> M (image * Quad);
  noiser_apply : Config -> image -> M image
}.

(* ================================================================== *)
(** * The renderer *)
(* ================================================================== *)

Section Renderer.
Context {L : Imaging} {C : Collaborators}.

(** The attributes of a [Renderer] object. *)
Record Renderer : Type := mkRenderer {
  corpus : Corpus;
  fonts : list string;
  bgs : list image;
  out_width : Z;
  out_height : Z;
  clip_max_chars : bool;
  max_chars : Z;
  debug : bool;
  gpu : bool;
  strict : bool;
  cfg : Config;
  font_chars : list (string * list string)
}.

(** [Renderer.__init__].  The liner and the noiser are built from [cfg]
    alone, so they are called with it where the renderer uses them. *)
Definition Renderer_init (corpus : Corpus) (fonts : list string) (bgs : list image)
    (cfg : Config) (width height : Z) (clip_max_chars debug gpu strict : bool)
  : Renderer :=
  {| corpus := corpus;
     fonts := fonts;
     bgs := bgs;
     out_width := width;
     out_height := height;
     clip_max_chars := clip_max_chars;
     max_chars := math_floor (inject_Z width / 4) - 1;
     debug := debug;
     gpu := gpu;
     strict := strict;
     cfg := cfg;
     font_chars := if strict then get_fonts_chars fonts (chars_file corpus) else [] |}.

Variable self : Renderer.

(** [random_xy_offset]: a random left-top point for putting a small
    rectangle in a large one. *)
Definition random_xy_offset (src_height src_width dst_height dst_width : Z)
  : M (Z * Z) :=
  let y_max_offset := if dst_height >? src_height then dst_height - src_height else 0 in
  let x_max_offset := if dst_width >? src_width then dst_width - src_width else 0 in
  y_offset <- (if negb (y_max_offset =? 0) then random_randint 0 y_max_offset else ret 0) ;;
  x_offset <- (if negb (x_max_offset =? 0) then random_randint 0 x_max_offset else ret 0) ;;
  ret (x_offset, y_offset).

Definition int_around (val : Q) : Z := np_around val.

(** The draw of line 126 of [crop_img]. *)
Definition draw_dst_height : M Z :=
  random_randint (out_height self / 4 * 3) (out_height self).

(** Line 128 of [crop_img]: the scale factor, from the bounding box and the
    drawn height. *)
Definition crop_scale (bbox : Z * Z * Z * Z) (dst_height : Z) : exn + Q :=
  let '(_, _, bbox_width, bbox_height) := bbox in
  match truediv (inject_Z bbox_height) (inject_Z dst_height),
        truediv (inject_Z bbox_width) (inject_Z (out_width self)) with
  | inr a, inr b => inr (Py.max a b)
  | inl e, _ => inl e
  | _, inl e => inl e
  end.

(** Lines 117 to 148 of [crop_img]: the crop rectangle [dst_bbox] on the
    input image, from the transformed text box. *)
Definition crop_rect (text_box_pnts_transformed : Quad) : M (Z * Z * Z * Z) :=
  let bbox := cv2_boundingRect text_box_pnts_transformed in
  let '(bbox_x, bbox_y, bbox_width, bbox_height) := bbox in
  dst_height <- draw_dst_height ;;
  scale <- lift (crop_scale bbox dst_height) ;;
  sw <- lift (truediv (inject_Z bbox_width) scale) ;;
  let s_bbox_width := math_ceil sw in
  sh <- lift (truediv (inject_Z bbox_height) scale) ;;
  let s_bbox_height := math_ceil sh in
  s0 <- lift (truediv (inject_Z bbox_x) scale) ;;
  s1 <- lift (truediv (inject_Z bbox_y) scale) ;;
  let s_bbox := (np_around s0, np_around s1, np_around sw, np_around sh) in
  '(x_offset, y_offset) <-
    random_xy_offset s_bbox_height s_bbox_width (out_height self) (out_width self) ;;
  ret (int_around (inject_Z (np_around s0 - x_offset) * scale),
       int_around (inject_Z (np_around s1 - y_offset) * scale),
       int_around (inject_Z (out_width self) * scale),
       int_around (inject_Z (out_height self) * scale)).

(** [crop_img]: the output raster and the crop rectangle on the input.
    The crop comes first, the resize second. *)
Definition crop_img (img : image) (text_box_pnts_transformed : Quad)
  : M (image * (Z * Z * Z * Z)) :=
  dst_bbox <- crop_rect text_box_pnts_transformed ;;
  let '(x, y, w, h) := dst_bbox in
  let dst := np_slice img y (y + h) x (x + w) in
  dst <- lift (cv2_resize dst (out_width self, out_height self) INTER_CUBIC) ;;
  ret (dst, dst_bbox).

(** [get_word_color]: an ink value from the background under the word. *)
Definition get_word_color (bg : image) (text_x text_y word_height word_width : Z)
  : M Z :=
  let offset := 10 in
  let ymin := text_y - offset in
  let ymax := text_y + word_height + offset in
  let xmin := text_x - offset in
  let xmax := text_x + word_width + offset in
  let word_roi_bg := np_slice bg ymin ymax xmin xmax in
  bg_mean <- lift (int_of_float
                     (option_map (fun m => m * (2 / 3))%Q (np_mean_float word_roi_bg))) ;;
  random_randint 0 bg_mean.

(** [get_word_size]: the size of a word with the font's offset removed. *)
Definition get_word_size (font : font) (word : string) : Z * Z :=
  let offset := font_getoffset font word in
  let size := font_getsize font word in
  (fst size - fst offset, snd size - snd offset).

(** [draw_text_seamless]: the word on a white patch, blended into the
    background by [cv2.seamlessClone]. *)
Definition draw_text_seamless (font : font) (bg : image) (word : string)
    (word_color word_height word_width : Z) (offset : Z * Z) : M image :=
  let seamless_offset := 6 in
  let white_bg := np_full (word_height + seamless_offset) (word_width + seamless_offset) 255 in
  let text_img :=
    draw_text (np_uint8 white_bg)
              (0 + seamless_offset / 2, 0 - snd offset + seamless_offset / 2)
              word word_color font in
  let text_img := np_uint8 text_img in
  let text_mask := np_full (rows text_img) (cols text_img) 255 in
  let center := (cols bg / 2, rows bg / 2) in
  let text_img_bgr := cv2_cvtColor text_img COLOR_GRAY2BGR in
  let bg_bgr := cv2_cvtColor bg COLOR_GRAY2BGR in
  flag <- np_random_choice [NORMAL_CLONE; MIXED_CLONE; MONOCHROME_TRANSFER] ;;
  let mixed_clone := cv2_seamlessClone text_img_bgr bg_bgr text_mask center flag in
  ret (cv2_cvtColor mixed_clone COLOR_BGR2GRAY).

(** The measuring loop of [draw_text_with_random_space]: the running
    [(width, height, chars_size, y_offset)] after one more character. *)
Definition measure_char (font : font) (acc : Z * Z * list (Z * Z) * Z) (c : string)
  : Z * Z * list (Z * Z) * Z :=
  let '(width, height, chars_size, y_offset) := acc in
  let size := font_getsize font c in
  let c_offset := font_getoffset font c in
  (width + fst size,
   (if snd size >? height then snd size else height),
   chars_size ++ [size],
   (if snd c_offset <? y_offset then snd c_offset else y_offset)).

(** The drawing loop of [draw_text_with_random_space]: the canvas and the
    pen position after one more character. *)
Definition draw_char (font : font) (word_color c_y y_offset char_space_width : Z)
    (acc : image * Z) (c_size : string * (Z * Z)) : image * Z :=
  let '(draw, c_x) := acc in
  let '(c, size) := c_size in
  (draw_text draw (c_x, c_y - y_offset) c word_color font,
   c_x + (fst size + char_space_width)).

(** [draw_text_with_random_space]: the characters one by one with a random
    gap; returns the canvas drawn on and
    [(text_x, text_y, width, height)]. *)
Definition draw_text_with_random_space (draw : image) (font : font) (word : string)
    (word_color bg_width bg_height : Z) : M (image * (Z * Z * Z * Z)) :=
  let '(width, height, chars_size, y_offset) :=
    fold_left (measure_char font) (chars word) (0, 0, [], 10 ^ 5) in
  u <- np_random_uniform (cfg_random_space_min (cfg self))
                         (cfg_random_space_max (cfg self)) ;;
  let char_space_width := Py.int (inject_Z height * u) in
  let width := width + char_space_width * (Z.of_nat (String.length word) - 1) in
  let text_x := Py.int (inject_Z (bg_width - width) / 2) in
  let text_y := Py.int (inject_Z (bg_height - height) / 2) in
  let c_x := text_x in
  let c_y := text_y in
  let '(draw, _) :=
    fold_left (draw_char font word_color c_y y_offset char_space_width)
              (combine (chars word) chars_size) (draw, c_x) in
  ret (draw, (text_x, text_y, width, height)).

(** [draw_text_on_bg]: the word in the centre of the background; returns
    the image, the text box and the ink value. *)
Definition draw_text_on_bg (word : string) (font : font) (bg : image)
  : M (image * Quad * Z) :=
  let bg_height := rows bg in
  let bg_width := cols bg in
  let word_size := get_word_size font word in
  let word_height := snd word_size in
  let word_width := fst word_size in
  let offset := font_getoffset font word in
  let pil_img := np_uint8 bg in
  let text_x := Py.int (inject_Z (bg_width - word_width) / 2) in
  let text_y := Py.int (inject_Z (bg_height - word_height) / 2) in
  word_color <- get_word_color bg text_x text_y word_height word_width ;;
  random_space <- apply (cfg_random_space (cfg self)) ;;
  '(np_img, (text_x, text_y, word_width, word_height)) <-
    (if random_space : bool then
       '(pil_img, box) <-
         draw_text_with_random_space pil_img font word word_color bg_width bg_height ;;
       ret (np_float32 pil_img, box)
     else
       seamless <- apply (cfg_seamless_clone (cfg self)) ;;
       if seamless : bool then
         np_img <- draw_text_seamless font bg word word_color word_height word_width offset ;;
         ret (np_img, (text_x, text_y, word_width, word_height))
       else
         let pil_img :=
           draw_text pil_img (text_x - fst offset, text_y - snd offset) word word_color font in
         ret (np_float32 pil_img, (text_x, text_y, word_width, word_height))) ;;
  let pnt (x y : Z) : Q * Q := (inject_Z x, inject_Z y) in
  let text_box_pnts :=
    {| left_top := pnt text_x text_y;
       right_top := pnt (text_x + word_width) text_y;
       right_bottom := pnt (text_x + word_width) (text_y + word_height);
       left_bottom := pnt text_x (text_y + word_height) |} in
  ret (np_img, text_box_pnts, word_color).

(** [apply_gauss_blur(img, ks=None)]. *)
Definition apply_gauss_blur (img : image) (ks : option (list Z)) : M image :=
  let ks := match ks with None => [7; 9; 11; 13] | Some ks => ks end in
  ksize <- random_choice ks ;;
  let sigmas := [0; 1; 2; 3; 4; 5; 6; 7] in
  sigma <- (if ksize <=? 3 then random_choice sigmas else ret 0) ;;
  ret (cv2_GaussianBlur img ksize sigma).

(** [apply_norm_blur(img, ks=None)]. *)
Definition apply_norm_blur (img : image) (ks : option (list Z)) : M image :=
  let ks := match ks with None => [2; 3] | Some ks => ks end in
  kernel <- random_choice ks ;;
  ret (cv2_blur img kernel).

(** [apply_blur_on_output]. *)
Definition apply_blur_on_output (img : image) : M image :=
  gauss <- prob (1 # 2) ;;
  if gauss : bool then apply_gauss_blur img (Some [3; 5])
  else apply_norm_blur img None.

(** [apply_prydown]: shrink, then enlarge back. *)
Definition apply_prydown (img : image) : M image :=
  scale <- random_uniform 1 (cfg_prydown_max_scale (cfg self)) ;;
  let height := rows img in
  let width := cols img in
  sw <- lift (truediv (inject_Z width) scale) ;;
  sh <- lift (truediv (inject_Z height) scale) ;;
  out <- lift (cv2_resize img (Py.int sw, Py.int sh) INTER_AREA) ;;
  lift (cv2_resize out (width, height) INTER_AREA).

(** [reverse_img]. *)
Definition reverse_img (word_img : image) : M image :=
  offset <- np_random_randint (-10) 10 ;;
  ret (np_rsub (inject_Z (255 + offset)) word_img).

(** [height * width] draws of [numpy.random.randint(low, high)], row by row. *)
Fixpoint np_random_randint_many (n : nat) (low high : Z) : M (list Z) :=
  match n with
  | O => ret []
  | S n' =>
      v <- np_random_randint low high ;;
      vs <- np_random_randint_many n' low high ;;
      ret (v :: vs)
  end.

(** [gen_rand_bg]: a random background. *)
Definition gen_rand_bg (width height : Z) : M image :=
  bg_high <- random_uniform 220 255 ;;
  u <- random_uniform 1 60 ;;
  let bg_low := (bg_high - u)%Q in
  data <- (if (height <? 0) || (width <? 0) then raise ValueError
           else np_random_randint_many (Z.to_nat (height * width))
                                       (Py.int bg_low) (Py.int bg_high)) ;;
  let bg := np_uint8 (np_array height width data) in
  apply_gauss_blur bg None.

(** Line 322 of [gen_bg_from_image]: the resize factor. *)
Definition bg_scale (width height : Z) (bg : image) : exn + Q :=
  match truediv (inject_Z width) (inject_Z (cols bg)),
        truediv (inject_Z height) (inject_Z (rows bg)) with
  | inr a, inr b => inr (Py.max a b)
  | inl e, _ => inl e
  | _, inl e => inl e
  end.

(** [gen_bg_from_image]: resize a stock background so that it covers the
    request, and crop a random window of it. *)
Definition gen_bg_from_image (width height : Z) : M image :=
  _ <- py_assert (width >? height) ;;
  bg <- random_choice (bgs self) ;;
  scale <- lift (bg_scale width height bg) ;;
  out <- lift (cv2_resize_scaled bg scale scale) ;;
  '(x_offset, y_offset) <- random_xy_offset height width (rows out) (cols out) ;;
  let out := np_slice out y_offset (y_offset + height) x_offset (x_offset + width) in
  out <- apply_gauss_blur out (Some [7; 11; 13; 15; 17]) ;;
  bg_mean <- lift (int_of_float (np_mean_float out)) ;;
  alpha <- lift (truediv 255 (inject_Z bg_mean)) ;;
  beta <- np_random_randint (bg_mean / 2) bg_mean ;;
  ret (np_uint8 (np_clip (np_scale_add alpha out (inject_Z beta)) 0 255)).

(** [gen_bg]. *)
Definition gen_bg (width height : Z) : M image :=
  img_bg <- apply (cfg_img_bg (cfg self)) ;;
  if img_bg : bool then gen_bg_from_image width height
  else gen_rand_bg width height.

(** The strict check of [pick_font]: every character but the space must be
    one the font supports. *)
Fixpoint check_supported (supported_chars word : list string) : M unit :=
  match word with
  | [] => ret tt
  | c :: rest =>
      if String.eqb c " " then check_supported supported_chars rest
      else if negb (existsb (String.eqb c) supported_chars) then raise Exception
      else check_supported supported_chars rest
  end.

(** [self.font_chars[font_path]]. *)
Fixpoint dict_get (d : list (string * list string)) (key : string) : exn + list string :=
  match d with
  | [] => inl KeyError
  | (k, v) :: d' => if String.eqb k key then inr v else dict_get d' key
  end.

(** Lines 349 and 350 of [pick_font]: the clipping of the word. *)
Definition clip_word (word : string) : string :=
  if clip_max_chars self && (Z.of_nat (String.length word) >? max_chars self)
  then str_prefix word (max_chars self)
  else word.

(** The body of [pick_font]: one attempt. *)
Definition pick_font_body : M (string * font * (Z * Z)) :=
  word <- get_sample (corpus self) ;;
  let word := clip_word word in
  font_path <- random_choice (fonts self) ;;
  _ <- (if strict self then
          supported_chars <- lift (dict_get (font_chars self) font_path) ;;
          check_supported supported_chars (chars word)
        else ret tt) ;;
  font_size <- random_randint (cfg_font_size_min (cfg self)) (cfg_font_size_max (cfg self)) ;;
  let font := ImageFont_truetype font_path font_size in
  ret (word, font, get_word_size font word).

(** [pick_font], under [@retry]. *)
Definition pick_font (attempts : nat) : M (string * font * (Z * Z)) :=
  retry attempts pick_font_body.

(** [apply_perspective_transform]: the warped image, the warped corners of
    the whole image and the warped text box. *)
Definition apply_perspective_transform (img : image) (text_box_pnts : Quad)
    (max_x max_y max_z : Q) (gpu : bool) : M (image * Quad * Quad) :=
  x <- cliped_rand_norm 0 max_x ;;
  y <- cliped_rand_norm 0 max_y ;;
  z <- cliped_rand_norm 0 max_z ;;
  let transformer := PerspectiveTransform x y z 1 50 in
  let '(dst_img, M33, dst_img_pnts) := transform_image transformer img gpu in
  let dst_text_pnts := transform_pnts transformer text_box_pnts M33 in
  ret (dst_img, dst_img_pnts, dst_text_pnts).

(** Lines 66 to 68 of [gen_img]: the optional noise. *)
Definition noise_stage (word_img : image) : M image :=
  noise <- apply (cfg_noise (cfg self)) ;;
  if noise : bool then noiser_apply (cfg self) (np_clip word_img 0 255) else ret word_img.

(** Lines 70 to 73 of [gen_img]: the optional blur, and whether it was applied. *)
Definition blur_stage (word_img : image) : M (bool * image) :=
  let blured := false in
  blur <- apply (cfg_blur (cfg self)) ;;
  if blur : bool then
    let blured := true in
    word_img <- apply_blur_on_output word_img ;;
    ret (blured, word_img)
  else ret (blured, word_img).

(** Lines 75 to 77 of [gen_img]: prydown, unless the image was blurred. *)
Definition prydown_stage (blured : bool) (word_img : image) : M image :=
  if negb blured then
    prydown <- apply (cfg_prydown (cfg self)) ;;
    if prydown : bool then apply_prydown word_img else ret word_img
  else ret word_img.

(** Lines 79 to 82 of [gen_img]: the final clip and the optional inversion. *)
Definition reverse_stage (word_img : image) : M image :=
  let word_img := np_clip word_img 0 255 in
  reverse_color <- apply (cfg_reverse_color (cfg self)) ;;
  if reverse_color : bool then reverse_img word_img else ret word_img.

(** Lines 66 to 82 of [gen_img]: the post-effects, in their order. *)
Definition post_effects (word_img : image) : M image :=
  word_img <- noise_stage word_img ;;
  '(blured, word_img) <- blur_stage word_img ;;
  word_img <- prydown_stage blured word_img ;;
  reverse_stage word_img.

(** [gen_img]: one labelled image. *)
Definition gen_img (attempts : nat) : M (image * string) :=
  '(word, font, word_size) <- pick_font attempts ;;
  bg <- gen_bg (fst word_size * 8) (snd word_size * 8) ;;
  '(word_img, text_box_pnts, word_color) <- draw_text_on_bg word font bg ;;
  line <- apply (cfg_line (cfg self)) ;;
  '(word_img, text_box_pnts) <-
    (if line : bool then liner_apply (cfg self) word_img text_box_pnts word_color
     else ret (word_img, text_box_pnts)) ;;
  '(word_img, img_pnts_transformed, text_box_pnts_transformed) <-
    apply_perspective_transform word_img text_box_pnts
      (cfg_perspective_max_x (cfg self)) (cfg_perspective_max_y (cfg self))
      (cfg_perspective_max_z (cfg self)) (gpu self) ;;
  word_img <-
    (if debug self then
       let word_img := draw_box word_img img_pnts_transformed (0, 255, 0) in
       let word_img := draw_box word_img text_box_pnts_transformed (0, 0, 255) in
       '(_, crop_bbox) <- crop_img word_img text_box_pnts_transformed ;;
       ret (draw_bbox word_img crop_bbox (255, 0, 0))
     else
       '(word_img, crop_bbox) <- crop_img word_img text_box_pnts_transformed ;;
       ret word_img) ;;
  word_img <- post_effects word_img ;;
  ret (word_img, word).

End Renderer.

(** The same configuration with another [prydown] entry. *)
Definition set_prydown (c : Config) (item : CfgItem) (max_scale : Q) : Config :=
  {| cfg_line := cfg_line c; cfg_noise := cfg_noise c; cfg_blur := cfg_blur c;
     cfg_prydown := item; cfg_prydown_max_scale := max_scale;
     cfg_reverse_color := cfg_reverse_color c;
     cfg_random_space := cfg_random_space c;
     cfg_random_space_min := cfg_random_space_min c;
     cfg_random_space_max := cfg_random_space_max c;
     cfg_seamless_clone := cfg_seamless_clone c; cfg_img_bg := cfg_img_bg c;
     cfg_perspective_max_x := cfg_perspective_max_x c;
     cfg_perspective_max_y := cfg_perspective_max_y c;
     cfg_perspective_max_z := cfg_perspective_max_z c;
     cfg_font_size_min := cfg_font_size_min c; cfg_font_size_max := cfg_font_size_max c |}.

(** The same renderer under another configuration. *)
Definition with_cfg {L : Imaging} (self : Renderer) (c : Config) : Renderer :=
  {| corpus := corpus self; fonts := fonts self; bgs := bgs self;
     out_width := out_width self; out_height := out_height self;
     clip_max_chars := clip_max_chars self; max_chars := max_chars self;
     debug := debug self; gpu := gpu self; strict := strict self;
     cfg := c; font_chars := font_chars self |}.

(** The quantities the text box of a spaced word is made of: the sum of the
    character widths and the largest character height. *)
Definition sum_char_widths {L : Imaging} (font : font) (word : string) : Z :=
  fold_right Z.add 0 (map (fun c => fst (font_getsize font c)) (chars word)).

Definition max_char_height {L : Imaging} (font : font) (word : string) : Z :=
  fold_right Z.max 0 (map (fun c => snd (font_getsize font c)) (chars word)).

(* ================================================================== *)
(** * A concrete model: uniform rasters, a monospaced font, flat geometry *)
(* ================================================================== *)

Module Uniform.

(** A raster of one intensity: its shape and the value every pixel has.
    Resampling, blurring and cropping keep the value; ink drawn on it is
    not recorded. *)
Record raster : Type := mkRaster {
  r_rows : Z;
  r_cols : Z;
  r_val : Q
}.

(** A font file at a size: every glyph is [size / 2] wide and [size] high,
    with no offset. *)
Record mono_font : Type := mkFont {
  f_path : string;
  f_size : Z
}.

Definition r_shape (img : raster) : Z * Z := (Z.max 0 (r_rows img), Z.max 0 (r_cols img)).

Definition r_pixel (img : raster) (i j : Z) : option Q :=
  if (0 <=? i) && (i <? r_rows img) && (0 <=? j) && (j <? r_cols img)
  then Some (r_val img) else None.

Definition r_slice (img : raster) (y0 y1 x0 x1 : Z) : raster :=
  mkRaster (slice_len (Z.max 0 (r_rows img)) y0 y1)
           (slice_len (Z.max 0 (r_cols img)) x0 x1) (r_val img).

Definition r_map (f : Q -> Q) (img : raster) : raster :=
  mkRaster (r_rows img) (r_cols img) (f (r_val img)).

Definition clip (lo hi v : Q) : Q := Qmax lo (Qmin hi v).

Definition to_uint8 (v : Q) : Q := inject_Z (Py.int v mod 256).

Definition getsize (f : mono_font) (text : string) : Z * Z :=
  (f_size f / 2 * Z.of_nat (String.length text), f_size f).

End Uniform.

Import Uniform.

Lemma slice_len_nonneg n a b : 0 <= slice_len n a b.
Proof. unfold slice_len. lia. Qed.

Lemma slice_len_pos_inv n a b : 0 <= n -> 0 < slice_len n a b -> 0 < n.
Proof.
  unfold slice_len, slice_index. intros Hn H.
  destruct (a <? 0) eqn:Ha, (b <? 0) eqn:Hb; lia.
Qed.

Lemma r_pixel_Some img i j v :
  r_pixel img i j = Some v ->
  v = r_val img /\ 0 <= i < r_rows img /\ 0 <= j < r_cols img.
Proof.
  unfold r_pixel.
  destruct ((0 <=? i) && (i <? r_rows img) && (0 <=? j) && (j <? r_cols img)) eqn:E;
    [| discriminate].
  intros [= <-].
  apply andb_prop in E; destruct E as [E H4].
  apply andb_prop in E; destruct E as [E H3].
  apply andb_prop in E; destruct E as [H1 H2].
  apply Z.leb_le in H1, H3. apply Z.ltb_lt in H2, H4.
  split; [reflexivity | lia].
Qed.

Lemma r_pixel_origin img :
  0 < r_rows img -> 0 < r_cols img -> r_pixel img 0 0 = Some (r_val img).
Proof.
  intros Hr Hc. unfold r_pixel.
  replace (0 <? r_rows img) with true by (symmetry; apply Z.ltb_lt; lia).
  replace (0 <? r_cols img) with true by (symmetry; apply Z.ltb_lt; lia).
  reflexivity.
Qed.

#[export, refine] Instance uniform_imaging : Imaging := {|
  image := raster;
  font := mono_font;
  shape := r_shape;
  np_pixel := r_pixel;
  np_slice := r_slice;
  np_mean := r_val;
  np_clip := fun img lo hi => r_map (clip lo hi) img;
  np_rsub := fun c img => r_map (fun v => c - v)%Q img;
  np_scale_add := fun a img b => r_map (fun v => a * v + b)%Q img;
  np_uint8 := r_map to_uint8;
  np_float32 := fun img => img;
  np_full := mkRaster;
  np_array := fun h w data => mkRaster h w (inject_Z (hd 0 data));
  resample := fun img w h _ => mkRaster h w (r_val img);
  cv2_GaussianBlur := fun img _ _ => img;
  cv2_blur := fun img _ => img;
  cv2_cvtColor := fun img _ => img;
  cv2_seamlessClone := fun _ dst _ _ _ => dst;
  ImageFont_truetype := mkFont;
  font_getsize := getsize;
  font_getoffset := fun _ _ => (0, 0);
  draw_text := fun img _ _ _ _ => img
|}.
Proof.
  - intros img. unfold r_shape. simpl. lia.
  - intros img y0 y1 x0 x1. unfold r_shape, r_slice. simpl.
    f_equal; apply Z.max_r, slice_len_nonneg.
  - intros img w h i Hw Hh. unfold r_shape. simpl. f_equal; lia.
  - reflexivity.
  - reflexivity.
  - reflexivity.
  - reflexivity.
  - intros c img i j. unfold r_pixel, r_map. simpl.
    destruct ((0 <=? i) && (i <? r_rows img) && (0 <=? j) && (j <? r_cols img));
      reflexivity.
  - intros img i j. unfold r_shape, r_pixel. simpl. intros Hi Hj.
    exists (r_val img).
    replace (0 <=? i) with true by (symmetry; apply Z.leb_le; lia).
    replace (i <? r_rows img) with true by (symmetry; apply Z.ltb_lt; lia).
    replace (0 <=? j) with true by (symmetry; apply Z.leb_le; lia).
    replace (j <? r_cols img) with true by (symmetry; apply Z.ltb_lt; lia).
    reflexivity.
  - intros img y0 y1 x0 x1 Hb i j v Hv.
    apply r_pixel_Some in Hv. destruct Hv as (-> & Hi & Hj).
    unfold r_slice in Hi, Hj. simpl in Hi, Hj. simpl.
    apply (Hb 0 0). apply r_pixel_origin.
    + assert (0 < Z.max 0 (r_rows img))
        by (apply slice_len_pos_inv with (a := y0) (b := y1); lia). lia.
    + assert (0 < Z.max 0 (r_cols img))
        by (apply slice_len_pos_inv with (a := x0) (b := x1); lia). lia.
  - intros img w h it Hr Hc Hb i j v Hv.
    apply r_pixel_Some in Hv. destruct Hv as (-> & _ & _). simpl in *.
    apply (Hb 0 0). apply r_pixel_origin; unfold r_shape in *; simpl in *; lia.
  - intros img k s Hb i j v Hv. apply (Hb i j v Hv).
  - intros img Hb Hr Hc. apply (Hb 0 0).
    apply r_pixel_origin; unfold r_shape in *; simpl in *; lia.
Defined.

(** Modelled from the spec: [prob] and [apply] of the module [libs.utils],
    the Bernoulli toggles of the configuration: an enabled stage is applied
    with its configured probability. *)
Definition bernoulli_prob (percent : Q) : M bool :=
  u <- random_uniform 0 1 ;; ret (Qle_bool u percent).

Definition bernoulli_apply (cfg_item : CfgItem) : M bool :=
  if enable cfg_item then bernoulli_prob (fraction cfg_item) else ret false.

(** Modelled from the spec: the Geometry Service of the module
    [libs.math_utils], here for a camera facing the image, whose projection
    leaves rasters and points where they are; an angle is drawn within
    [mu - clip, mu + clip]. *)
Definition flat_cliped_rand_norm (mu clip : Q) : M Q :=
  random_uniform (mu - clip) (mu + clip).

Definition image_corners (img : raster) : Quad :=
  let w := inject_Z (snd (r_shape img)) in
  let h := inject_Z (fst (r_shape img)) in
  {| left_top := (0%Q, 0%Q); right_top := (w, 0%Q);
     right_bottom := (w, h); left_bottom := (0%Q, h) |}.

#[export] Instance flat_collaborators : Collaborators (L := uniform_imaging) := {|
  matrix := Q * Q * Q * Q * Q;
  transformer := Q * Q * Q * Q * Q;
  cliped_rand_norm := flat_cliped_rand_norm;
  PerspectiveTransform := fun x y z scale fovy => (x, y, z, scale, fovy);
  transform_image := fun t img _ => (img, t, image_corners img);
  transform_pnts := fun _ pnts _ => pnts;
  prob := bernoulli_prob;
  apply := bernoulli_apply;
  draw_box := fun img _ _ => img;
  draw_bbox := fun img _ _ => img;
  get_fonts_chars := fun fonts _ => map (fun f => (f, chars "abcdefghijklmnopqrstuvwxyz")) fonts;
  liner_apply := fun _ img pnts _ => ret (img, pnts);
  noiser_apply := fun _ img => ret img
|}.

(** A corpus that hands out the samples of the world's feed, in order. *)
Definition feed_corpus : Corpus :=
  {| get_sample := fun w =>
       match corpus_feed w with
       | [] => (inr EmptyString, w)
       | s :: t => (inr s, mkWorld (py_tape w) (np_tape w) t)
       end;
     chars_file := "chars.txt" |}.

Definition off : CfgItem := {| enable := false; fraction := 0 |}.
Definition on : CfgItem := {| enable := true; fraction := 1 |}.

(** Every optional stage off. *)
Definition plain_cfg : Config :=
  {| cfg_line := off; cfg_noise := off; cfg_blur := off;
     cfg_prydown := off; cfg_prydown_max_scale := 2;
     cfg_reverse_color := off;
     cfg_random_space := off; cfg_random_space_min := 0; cfg_random_space_max := 1;
     cfg_seamless_clone := off; cfg_img_bg := off;
     cfg_perspective_max_x := 20; cfg_perspective_max_y := 20; cfg_perspective_max_z := 5;
     cfg_font_size_min := 20; cfg_font_size_max := 20 |}.

(** Blur and prydown both on. *)
Definition blur_prydown_cfg : Config :=
  {| cfg_line := off; cfg_noise := off; cfg_blur := on;
     cfg_prydown := on; cfg_prydown_max_scale := 2;
     cfg_reverse_color := off;
     cfg_random_space := off; cfg_random_space_min := 0; cfg_random_space_max := 1;
     cfg_seamless_clone := off; cfg_img_bg := off;
     cfg_perspective_max_x := 20; cfg_perspective_max_y := 20; cfg_perspective_max_z := 5;
     cfg_font_size_min := 20; cfg_font_size_max := 20 |}.

(** A renderer over one font and the given stock backgrounds. *)
Definition renderer_of (bgs : list raster) (cfg : Config) (width height : Z) (clip : bool)
  : Renderer :=
  Renderer_init feed_corpus ["mono.ttf"%string] bgs cfg width height clip false false false.

Definition grey_bg : raster := mkRaster 100 100 128.
Definition black_bg : raster := mkRaster 100 100 0.

Definition world_of (py np : list Z) : World := mkWorld py np [].

(** A text box inside a raster of 100 rows and 400 columns. *)
Definition text_quad : Quad :=
  {| left_top := (150 # 1, 40 # 1); right_top := (249 # 1, 40 # 1);
     right_bottom := (249 # 1, 59 # 1); left_bottom := (150 # 1, 59 # 1) |}.

(** A text box that sticks out of the raster on the left. *)
Definition left_quad : Quad :=
  {| left_top := (-20 # 1, 10 # 1); right_top := (79 # 1, 10 # 1);
     right_bottom := (79 # 1, 29 # 1); left_bottom := (-20 # 1, 29 # 1) |}.

(** Spacing between 0.5 and 0.875 of the height. *)
Definition spaced_cfg : Config :=
  {| cfg_line := off; cfg_noise := off; cfg_blur := off;
     cfg_prydown := off; cfg_prydown_max_scale := 2;
     cfg_reverse_color := off;
     cfg_random_space := on; cfg_random_space_min := 1 # 2; cfg_random_space_max := 7 # 8;
     cfg_seamless_clone := off; cfg_img_bg := off;
     cfg_perspective_max_x := 20; cfg_perspective_max_y := 20; cfg_perspective_max_z := 5;
     cfg_font_size_min := 20; cfg_font_size_max := 20 |}.

(* ================================================================== *)
(** * Running the monad *)
(* ================================================================== *)

Lemma bind_inr {A B} (m : M A) (k : A -> M B) w a w' :
  m w = (inr a, w') -> bind m k w = k a w'.
Proof. intros H. unfold bind. rewrite H. reflexivity. Qed.

Lemma bind_inl {A B} (m : M A) (k : A -> M B) w e w' :
  m w = (inl e, w') -> bind m k w = (inl e, w').
Proof. intros H. unfold bind. rewrite H. reflexivity. Qed.

Lemma bind_inv {A B} (m : M A) (k : A -> M B) w b w2 :
  bind m k w = (inr b, w2) ->
  exists a w1, m w = (inr a, w1) /\ k a w1 = (inr b, w2).
Proof.
  unfold bind. destruct (m w) as [[e | a] w1]; [discriminate |].
  intros H. exists a, w1. split; [reflexivity | exact H].
Qed.

Lemma lift_inv {A} (r : exn + A) w a w' :
  lift r w = (inr a, w') -> r = inr a /\ w' = w.
Proof. unfold lift. intros [= -> ->]. split; reflexivity. Qed.

Lemma ret_inv {A} (x : A) w a w' : ret x w = (inr a, w') -> a = x /\ w' = w.
Proof. unfold ret. intros [= -> ->]. split; reflexivity. Qed.

(** Inversion of a successful run, one bind at a time: [step H a w Ha]
    splits [H : bind m k w0 = (inr b, w2)] into [Ha : m w0 = (inr a, w)] and
    [H : k a w = (inr b, w2)]. *)
Ltac step H a w Ha := apply bind_inv in H as (a & w & Ha & H).

(** An inequality between rationals built from integers, as one on integers. *)
Ltac q2z :=
  unfold Qle, Qlt, Qeq, Qminus, Qplus, Qopp, Qmult, inject_Z; cbn [Qnum Qden]; try lia.

Lemma py_next_total w : exists r w', py_next w = (inr r, w').
Proof. unfold py_next. destruct (py_tape w); eauto. Qed.

Lemma np_next_total w : exists r w', np_next w = (inr r, w').
Proof. unfold np_next. destruct (np_tape w); eauto. Qed.

(** The draws of [random.randint(a, b)] are the integers from [a] to [b]. *)
Lemma random_randint_range a b w d w' :
  random_randint a b w = (inr d, w') -> a <= d <= b.
Proof.
  unfold random_randint. destruct (Z.ltb_spec b a) as [Hba | Hab]; [discriminate |].
  intros Hrun. apply bind_inv in Hrun as (r & w1 & _ & Hrun).
  apply ret_inv in Hrun as [-> _].
  pose proof (Z.mod_pos_bound r (b - a + 1)). lia.
Qed.

Lemma random_randint_total a b w :
  a <= b -> exists d w', random_randint a b w = (inr d, w') /\ a <= d <= b.
Proof.
  intros Hab. destruct (py_next_total w) as (r & w' & Hr).
  exists (a + r mod (b - a + 1)), w'. split.
  - unfold random_randint. destruct (Z.ltb_spec b a) as [Hba | _]; [lia |].
    erewrite bind_inr by exact Hr. reflexivity.
  - pose proof (Z.mod_pos_bound r (b - a + 1)). lia.
Qed.

Lemma random_randint_possible a b d :
  a <= d <= b -> random_randint a b (world_of [d - a] []) = (inr d, world_of [] []).
Proof.
  intros Hd. unfold random_randint. destruct (Z.ltb_spec b a); [lia |].
  unfold bind, py_next, ret, world_of. simpl.
  rewrite Z.mod_small by lia. f_equal. f_equal. lia.
Qed.

(** The draws of [numpy.random.randint(low, high)] stop short of [high]. *)
Lemma np_random_randint_range low high w d w' :
  np_random_randint low high w = (inr d, w') -> low <= d < high.
Proof.
  unfold np_random_randint. destruct (Z.leb_spec high low) as [Hhl | Hlh]; [discriminate |].
  intros Hrun. apply bind_inv in Hrun as (r & w1 & _ & Hrun).
  apply ret_inv in Hrun as [-> _].
  pose proof (Z.mod_pos_bound r (high - low)). lia.
Qed.

Lemma np_random_randint_total low high w :
  low < high -> exists d w', np_random_randint low high w = (inr d, w') /\ low <= d < high.
Proof.
  intros Hlh. destruct (np_next_total w) as (r & w' & Hr).
  exists (low + r mod (high - low)), w'. split.
  - unfold np_random_randint. destruct (Z.leb_spec high low) as [Hhl | _]; [lia |].
    erewrite bind_inr by exact Hr. reflexivity.
  - pose proof (Z.mod_pos_bound r (high - low)). lia.
Qed.

Lemma np_random_randint_possible low high d :
  low <= d < high ->
  np_random_randint low high (world_of [] [d - low]) = (inr d, world_of [] []).
Proof.
  intros Hd. unfold np_random_randint. destruct (Z.leb_spec high low); [lia |].
  unfold bind, np_next, ret, world_of. simpl.
  rewrite Z.mod_small by lia. f_equal. f_equal. lia.
Qed.

(** A raw word as a float lies in [0, 1). *)
Lemma unit_float_range r : (0 <= unit_float r /\ unit_float r < 1)%Q.
Proof.
  unfold unit_float, Qle, Qlt. simpl.
  pose proof (Z.mod_pos_bound r (2 ^ 53)). lia.
Qed.

Lemma retry_inv {A} (f : M A) attempts w a w' :
  retry attempts f w = (inr a, w') -> exists w0, f w0 = (inr a, w').
Proof.
  revert w. induction attempts as [| n IH]; intros w; simpl.
  - destruct (f w) as [[e | x] w1] eqn:E; [discriminate |].
    intros [= -> ->]. exists w. exact E.
  - destruct (f w) as [[e | x] w1] eqn:E.
    + apply IH.
    + intros [= -> ->]. exists w. exact E.
Qed.



(* ================================================================== *)
(** * The placement height of [crop_img] *)
(* ================================================================== *)

Section Placement.
Context {L : Imaging}.
Variable self : Renderer.

(** The lower end of the draw is three times the floored quarter. *)
Lemma floored_three_quarters (h : Z) : 3 * h - 9 <= 4 * (h / 4 * 3) <= 3 * h.
Proof.
  pose proof (Z.div_mod h 4 ltac:(lia)) as E.
  pose proof (Z.mod_pos_bound h 4 ltac:(lia)). lia.
Qed.

(** C6, as the code has it: for a positive output height the draw succeeds
    and [dst_height] is an integer from [3 * floor(out_height / 4)] to
    [out_height]; that lower end is [0.75 * out_height] when [out_height] is
    a multiple of 4, and less than 3 below it otherwise. *)
Theorem dst_height_range : forall w,
  0 < out_height self ->
  exists dst_height w',
    draw_dst_height self w = (inr dst_height, w') /\
    3 * (out_height self / 4) <= dst_height <= out_height self /\
    (out_height self mod 4 = 0 ->
     ((3 # 4) * inject_Z (out_height self) <= inject_Z dst_height)%Q) /\
    ((3 # 4) * inject_Z (out_height self) - 3 < inject_Z dst_height)%Q.
Proof.
  intros w Hpos. unfold draw_dst_height.
  pose proof (floored_three_quarters (out_height self)) as Hq.
  destruct (@random_randint_total (out_height self / 4 * 3) (out_height self) w)
    as (d & w' & Hrun & Hd); [lia |].
  exists d, w'. split; [exact Hrun |]. split; [lia |]. split.
  - intros Hmod.
    pose proof (Z.div_mod (out_height self) 4 ltac:(lia)) as E. q2z.
  - q2z.
Qed.

End Placement.

(** The theorem at work: output height 32, whatever the generator gives. *)
Lemma dst_height_range_witness :
  0 < out_height (renderer_of [grey_bg] plain_cfg 256 32 false) /\
  exists dst_height w',
    draw_dst_height (renderer_of [grey_bg] plain_cfg 256 32 false) (world_of [5] [])
    = (inr dst_height, w') /\
    3 * (32 / 4) <= dst_height <= 32 /\
    (32 mod 4 = 0 -> ((3 # 4) * inject_Z 32 <= inject_Z dst_height)%Q) /\
    ((3 # 4) * inject_Z 32 - 3 < inject_Z dst_height)%Q.
Proof.
  split; [reflexivity |].
  apply (dst_height_range (renderer_of [grey_bg] plain_cfg 256 32 false)
                          (world_of [5] [])).
  reflexivity.
Defined.

(** C6 as the specification words it fails: with an output height of 30 the
    draw can be 21, below three quarters of 30. *)
Lemma dst_height_below_three_quarters :
  0 < out_height (renderer_of [grey_bg] plain_cfg 256 30 false) /\
  draw_dst_height (renderer_of [grey_bg] plain_cfg 256 30 false) (world_of [0] [])
  = (inr 21, world_of [] []) /\
  (inject_Z 21 < (3 # 4) * inject_Z 30)%Q.
Proof. repeat split. Qed.

(* ================================================================== *)
(** * Colour inversion *)
(* ================================================================== *)

Section Inversion.
Context {L : Imaging}.

(** C8, on the code: [reverse_img] returns [255 + offset - word_img] for an
    offset that [numpy.random.randint(-10, 10)] draws from -10 to 9; the
    offset 10 of the specification is never drawn. *)
Theorem reverse_img_offset_range : forall (word_img : image) w,
  exists offset w',
    reverse_img word_img w = (inr (np_rsub (inject_Z (255 + offset)) word_img), w') /\
    -10 <= offset <= 9.
Proof.
  intros word_img w. unfold reverse_img.
  destruct (@np_random_randint_total (-10) 10 w) as (d & w' & Hrun & Hd); [lia |].
  exists d, w'. split; [| lia].
  erewrite bind_inr by exact Hrun. reflexivity.
Qed.

(** Every offset from -10 to 9 is drawn by some state of the generator. *)
Lemma reverse_img_offsets_drawn (word_img : image) offset :
  -10 <= offset <= 9 ->
  reverse_img word_img (world_of [] [offset + 10])
  = (inr (np_rsub (inject_Z (255 + offset)) word_img), world_of [] []).
Proof.
  intros Ho. unfold reverse_img.
  erewrite bind_inr by (apply np_random_randint_possible with (d := offset); lia). 
  reflexivity.
Qed.

(** Pixel by pixel, an inverted value is at most [264 - v]. *)
Lemma reverse_img_pixel_bound (word_img out : image) w w' i j v :
  reverse_img word_img w = (inr out, w') ->
  np_pixel word_img i j = Some v ->
  exists v', np_pixel out i j = Some v' /\ (245 - v <= v' /\ v' <= 264 - v)%Q.
Proof.
  unfold reverse_img. intros Hrun Hv.
  step Hrun offset w1 Hoff. apply ret_inv in Hrun as [-> _].
  apply np_random_randint_range in Hoff.
  assert (inject_Z 245 <= inject_Z (255 + offset) /\ inject_Z (255 + offset) <= inject_Z 264)%Q
    as [H1 H2] by (rewrite <- !Zle_Qle; lia).
  change (inject_Z 245) with 245%Q in H1. change (inject_Z 264) with 264%Q in H2.
  remember (inject_Z (255 + offset)) as q eqn:Eq. clear Eq Hoff.
  rewrite pixel_np_rsub, Hv. cbn [option_map]. eexists. split; [reflexivity |].
  split; lra.
Qed.

End Inversion.

(** On a one-pixel black raster the brightest inversion is 264, not 265. *)
Example reverse_img_brightest :
  reverse_img (mkRaster 1 1 0) (world_of [] [19]) = (inr (mkRaster 1 1 264), world_of [] []).
Proof. reflexivity. Qed.

(* ================================================================== *)
(** * The perspective stage *)
(* ================================================================== *)

Section Perspective.
Context {L : Imaging} {C : Collaborators}.

(** C1: once the three angles are drawn, the stage builds one transformer,
    warps the image with it, and maps the text box with the very matrix
    [M33] that the image warp returned. *)
Theorem perspective_one_matrix :
  forall (img : image) (text_box_pnts : Quad) max_x max_y max_z gpu w x w1 y w2 z w3,
    cliped_rand_norm 0 max_x w = (inr x, w1) ->
    cliped_rand_norm 0 max_y w1 = (inr y, w2) ->
    cliped_rand_norm 0 max_z w2 = (inr z, w3) ->
    exists dst_img M33 dst_img_pnts,
      transform_image (PerspectiveTransform x y z 1 50) img gpu
      = (dst_img, M33, dst_img_pnts) /\
      apply_perspective_transform img text_box_pnts max_x max_y max_z gpu w
      = (inr (dst_img, dst_img_pnts,
              transform_pnts (PerspectiveTransform x y z 1 50) text_box_pnts M33), w3).
Proof.
  intros img pnts max_x max_y max_z gpu w x w1 y w2 z w3 Hx Hy Hz.
  destruct (transform_image (PerspectiveTransform x y z 1 50) img gpu)
    as [[dst_img M33] dst_img_pnts] eqn:E.
  exists dst_img, M33, dst_img_pnts. split; [reflexivity |].
  unfold apply_perspective_transform.
  erewrite bind_inr by exact Hx.
  erewrite bind_inr by exact Hy.
  erewrite bind_inr by exact Hz.
  rewrite E. reflexivity.
Qed.

(** Whatever the stage returns came from one transformer and one matrix. *)
Lemma perspective_one_matrix_inv (img : image) (text_box_pnts : Quad)
    max_x max_y max_z gpu w dst_img dst_img_pnts dst_text_pnts w' :
  apply_perspective_transform img text_box_pnts max_x max_y max_z gpu w
  = (inr (dst_img, dst_img_pnts, dst_text_pnts), w') ->
  exists x y z M33,
    transform_image (PerspectiveTransform x y z 1 50) img gpu
    = (dst_img, M33, dst_img_pnts) /\
    dst_text_pnts = transform_pnts (PerspectiveTransform x y z 1 50) text_box_pnts M33.
Proof.
  unfold apply_perspective_transform. intros H.
  step H x w1 Hx. step H y w2 Hy. step H z w3 Hz.
  destruct (transform_image (PerspectiveTransform x y z 1 50) img gpu)
    as [[d M33] p] eqn:E.
  apply ret_inv in H as [H _]. injection H as E1 E2 E3. subst.
  exists x, y, z, M33. split; [exact E | reflexivity].
Qed.

End Perspective.

(** The theorem at work on the flat geometry: three angles drawn, one matrix. *)
Lemma perspective_one_matrix_witness :
  exists x y z w3 dst_img M33 dst_img_pnts,
    transform_image (PerspectiveTransform x y z 1 50) grey_bg false
    = (dst_img, M33, dst_img_pnts) /\
    apply_perspective_transform grey_bg text_quad 20 20 5 false (world_of [1; 2; 3] [])
    = (inr (dst_img, dst_img_pnts,
            transform_pnts (PerspectiveTransform x y z 1 50) text_quad M33), w3).
Proof.
  do 4 eexists.
  eapply (@perspective_one_matrix uniform_imaging flat_collaborators
            grey_bg text_quad 20 20 5 false (world_of [1; 2; 3] [])); reflexivity.
Defined.

(* ================================================================== *)
(** * Post-effects: blur before prydown *)
(* ================================================================== *)

Section PostEffects.
Context {L : Imaging} {C : Collaborators}.

(** When the blur toggle fires, what is left of the post-effects is the blur
    and the final clip and inversion. *)
Lemma post_effects_blurred (self : Renderer) (img img1 : image) w w1 w2 :
  noise_stage self img w = (inr img1, w1) ->
  apply (cfg_blur (cfg self)) w1 = (inr true, w2) ->
  post_effects self img w
  = bind (apply_blur_on_output img1) (reverse_stage self) w2.
Proof.
  intros Hnoise Hblur. unfold post_effects.
  erewrite bind_inr by exact Hnoise.
  assert (blur_stage self img1 w1
          = bind (apply_blur_on_output img1) (fun x => ret (true, x)) w2) as Hb.
  { unfold blur_stage. erewrite bind_inr by exact Hblur. reflexivity. }
  unfold bind at 1. rewrite Hb. unfold bind.
  destruct (apply_blur_on_output img1 w2) as [[e | blurred] w3]; reflexivity.
Qed.

(** When the blur toggle does not fire, the prydown toggle decides. *)
Lemma post_effects_not_blurred (self : Renderer) (img img1 : image) w w1 w2 :
  noise_stage self img w = (inr img1, w1) ->
  apply (cfg_blur (cfg self)) w1 = (inr false, w2) ->
  post_effects self img w
  = bind (prydown_stage self false img1) (reverse_stage self) w2.
Proof.
  intros Hnoise Hblur. unfold post_effects.
  erewrite bind_inr by exact Hnoise.
  assert (blur_stage self img1 w1 = (inr (false, img1), w2)) as Hb.
  { unfold blur_stage. erewrite bind_inr by exact Hblur. reflexivity. }
  erewrite bind_inr by exact Hb. reflexivity.
Qed.

(** C9: whenever the blur toggle fires, the post-effects are the blur
    followed by the final clip and inversion, and prydown is not run: the
    result is the one of the same renderer under any other prydown entry,
    switched off or on, given the same outcome of the noise stage. *)
Theorem blur_skips_prydown :
  forall (self : Renderer) (item : CfgItem) (max_scale : Q) (img img1 : image) w w1 w2,
    noise_stage self img w = (inr img1, w1) ->
    noise_stage (with_cfg self (set_prydown (cfg self) item max_scale)) img w
    = (inr img1, w1) ->
    apply (cfg_blur (cfg self)) w1 = (inr true, w2) ->
    post_effects self img w
    = bind (apply_blur_on_output img1) (reverse_stage self) w2 /\
    post_effects (with_cfg self (set_prydown (cfg self) item max_scale)) img w
    = post_effects self img w.
Proof.
  intros self item max_scale img img1 w w1 w2 Hnoise Hnoise' Hblur. split.
  - apply post_effects_blurred with (w1 := w1); assumption.
  - rewrite (@post_effects_blurred self img img1 w w1 w2 Hnoise Hblur).
    apply (@post_effects_blurred
             (with_cfg self (set_prydown (cfg self) item max_scale)) img img1 w w1 w2).
    + exact Hnoise'.
    + exact Hblur.
Qed.

End PostEffects.

(** The theorem at work: blur and prydown both switched on, and switching
    prydown off changes nothing. *)
Lemma blur_skips_prydown_witness :
  post_effects (renderer_of [grey_bg] blur_prydown_cfg 100 32 false)
               (mkRaster 32 100 128) (world_of [7; 7; 7; 7] [])
  = bind (apply_blur_on_output (mkRaster 32 100 128))
         (reverse_stage (renderer_of [grey_bg] blur_prydown_cfg 100 32 false))
         (world_of [7; 7; 7] []) /\
  post_effects (with_cfg (renderer_of [grey_bg] blur_prydown_cfg 100 32 false)
                         (set_prydown blur_prydown_cfg off 2))
               (mkRaster 32 100 128) (world_of [7; 7; 7; 7] [])
  = post_effects (renderer_of [grey_bg] blur_prydown_cfg 100 32 false)
                 (mkRaster 32 100 128) (world_of [7; 7; 7; 7] []).
Proof.
  apply (@blur_skips_prydown uniform_imaging flat_collaborators
           (renderer_of [grey_bg] blur_prydown_cfg 100 32 false) off 2
           (mkRaster 32 100 128) (mkRaster 32 100 128)
           (world_of [7; 7; 7; 7] []) (world_of [7; 7; 7; 7] []) (world_of [7; 7; 7] []));
    reflexivity.
Defined.

(* ================================================================== *)
(** * Clipping the word *)
(* ================================================================== *)

Lemma substring_prefix_length (n : nat) (s : string) :
  String.length (substring 0 n s) = Nat.min n (String.length s).
Proof.
  revert n. induction s as [| c s IH]; intros [| n]; simpl; try reflexivity.
  rewrite IH. reflexivity.
Qed.

(** A slice [s[:stop]] with a non-negative [stop] keeps at most [stop] characters. *)
Lemma str_prefix_length (s : string) (stop : Z) :
  0 <= stop -> Z.of_nat (String.length (str_prefix s stop)) <= stop.
Proof.
  intros Hs. unfold str_prefix, slice_index. rewrite substring_prefix_length.
  destruct (Z.ltb_spec stop 0); lia.
Qed.

(** A slice [s[:stop]] with a negative [stop] drops [-stop] characters from the end. *)
Lemma str_prefix_negative (s : string) (stop : Z) :
  stop < 0 ->
  Z.of_nat (String.length (str_prefix s stop)) = Z.max (Z.of_nat (String.length s) + stop) 0.
Proof.
  intros Hs. unfold str_prefix, slice_index. rewrite substring_prefix_length.
  destruct (Z.ltb_spec stop 0); lia.
Qed.

Lemma math_floor_quarter (width : Z) : math_floor (inject_Z width / 4) = width / 4.
Proof. unfold math_floor. symmetry. apply (Zdiv_Qdiv width 4). Qed.

Section Clipping.
Context {L : Imaging} {C : Collaborators}.

Lemma clip_word_length (self : Renderer) (word : string) :
  clip_max_chars self = true -> 0 <= max_chars self ->
  Z.of_nat (String.length (clip_word self word)) <= max_chars self.
Proof.
  intros Hclip Hmax. unfold clip_word. rewrite Hclip. simpl.
  destruct (Z.gtb_spec (Z.of_nat (String.length word)) (max_chars self)).
  - apply str_prefix_length. exact Hmax.
  - lia.
Qed.

(** Whatever [pick_font] returns is a clipped sample of the corpus. *)
Lemma pick_font_word (self : Renderer) attempts w word font size w' :
  pick_font self attempts w = (inr (word, font, size), w') ->
  exists sample, word = clip_word self sample.
Proof.
  unfold pick_font. intros H. apply retry_inv in H as (w0 & H).
  unfold pick_font_body in H.
  step H sample w1 Hsample. step H font_path w2 Hfont. step H u w3 Hstrict.
  step H font_size w4 Hsize. apply ret_inv in H as [H _].
  exists sample. congruence.
Qed.

(** The label [gen_img] returns is the word [pick_font] returned. *)
Lemma gen_img_word (self : Renderer) attempts w img word w' :
  gen_img self attempts w = (inr (img, word), w') ->
  exists font size w0 w1, pick_font self attempts w0 = (inr (word, font, size), w1).
Proof.
  unfold gen_img. intros H.
  step H picked w1 Hpick. destruct picked as [[word0 font0] size0].
  step H bg w2 Hbg. step H drawn w3 Hdraw. destruct drawn as [[word_img pnts] color].
  step H line w4 Hline. step H lined w5 Hlined. destruct lined as [word_img1 pnts1].
  step H warped w6 Hwarp. destruct warped as [[word_img2 img_pnts] text_pnts].
  step H cropped w7 Hcrop. step H final w8 Hpost.
  apply ret_inv in H as [H _].
  assert (word = word0) as -> by congruence.
  exists font0, size0, w, w1. exact Hpick.
Qed.

(** C10, as the code has it: for an output width of at least 4 the limit
    [floor(width / 4) - 1] is not negative, and with [clip_max_chars] on both
    the word [pick_font] returns and the label [gen_img] returns have at
    most that many characters.  The limit is computed from the width when
    the renderer is built. *)
Theorem clip_max_chars_bound :
  forall corpus fonts bgs cfg width height debug gpu strict,
    4 <= width ->
    let self := Renderer_init corpus fonts bgs cfg width height true debug gpu strict in
    max_chars self = math_floor (inject_Z width / 4) - 1 /\
    (forall attempts w word font size w',
        pick_font self attempts w = (inr (word, font, size), w') ->
        Z.of_nat (String.length word) <= math_floor (inject_Z width / 4) - 1) /\
    (forall attempts w img word w',
        gen_img self attempts w = (inr (img, word), w') ->
        Z.of_nat (String.length word) <= math_floor (inject_Z width / 4) - 1).
Proof.
  intros corpus fonts bgs cfg width height debug gpu strict Hwidth self.
  assert (0 <= max_chars self) as Hmax.
  { change (max_chars self) with (math_floor (inject_Z width / 4) - 1).
    rewrite math_floor_quarter.
    pose proof (Z.div_le_mono 4 width 4 ltac:(lia) Hwidth) as Hq.
    change (4 / 4) with 1 in Hq. lia. }
  assert (forall attempts w word font size w',
             pick_font self attempts w = (inr (word, font, size), w') ->
             Z.of_nat (String.length word) <= math_floor (inject_Z width / 4) - 1) as Hpick.
  { intros attempts w word font size w' H.
    apply pick_font_word in H as (sample & ->).
    apply (@clip_word_length self sample); [reflexivity | exact Hmax]. }
  split; [reflexivity |]. split; [exact Hpick |].
  intros attempts w img word w' H.
  apply gen_img_word in H as (font & size & w0 & w1 & H).
  apply (Hpick attempts w0 word font size w1 H).
Qed.

End Clipping.

(** The theorem at work: width 16, limit 3, the sample cut to three characters. *)
Lemma clip_max_chars_bound_witness :
  4 <= 16 /\
  pick_font (renderer_of [grey_bg] plain_cfg 16 32 true) 0
            (mkWorld [] [] ["abcdefgh"%string])
  = (inr ("abc"%string, mkFont "mono.ttf" 20, (30, 20)), mkWorld [] [] []) /\
  Z.of_nat (String.length "abc") <= math_floor (inject_Z 16 / 4) - 1.
Proof.
  split; [lia |]. split; [reflexivity |].
  apply (proj1 (proj2 (@clip_max_chars_bound uniform_imaging flat_collaborators
           feed_corpus ["mono.ttf"%string] [grey_bg] plain_cfg 16 32 false false false
           ltac:(lia)))
         0%nat (mkWorld [] [] ["abcdefgh"%string]) "abc"%string
         (mkFont "mono.ttf" 20) (30, 20) (mkWorld [] [] [])).
  reflexivity.
Defined.

(** C10 as worded fails below width 4: the limit is -1, every word is longer
    than that, and the slice [word[:-1]] only drops the last character. *)
Lemma clip_below_width_four :
  max_chars (renderer_of [grey_bg] plain_cfg 3 32 true) = -1 /\
  pick_font (renderer_of [grey_bg] plain_cfg 3 32 true) 0 (mkWorld [] [] ["abc"%string])
  = (inr ("ab"%string, mkFont "mono.ttf" 20, (20, 20)), mkWorld [] [] []) /\
  ~ Z.of_nat (String.length "ab") <= math_floor (inject_Z 3 / 4) - 1.
Proof.
  split; [reflexivity |]. split; [reflexivity |]. vm_compute. intros H. apply H. reflexivity.
Qed.

(* ================================================================== *)
(** * Rounding, division, bounding boxes *)
(* ================================================================== *)

Lemma round_half_even_floor (x : Q) : Qfloor x <= round_half_even x <= Qfloor x + 1.
Proof.
  unfold round_half_even.
  destruct (x - inject_Z (Qfloor x) ?= 1 # 2)%Q; [destruct (Z.even (Qfloor x)) | |]; lia.
Qed.

(** Rounding never goes below an integer the value has reached. *)
Lemma round_half_even_ge (z : Z) (x : Q) : (inject_Z z <= x)%Q -> z <= round_half_even x.
Proof.
  intros H. apply Qfloor_resp_le in H. rewrite Qfloor_Z in H.
  pose proof (round_half_even_floor x). lia.
Qed.

Lemma py_max_l (a b : Q) : (a <= Py.max a b)%Q.
Proof. unfold Py.max. destruct (Qlt_le_dec a b); lra. Qed.

Lemma py_max_r (a b : Q) : (b <= Py.max a b)%Q.
Proof. unfold Py.max. destruct (Qlt_le_dec a b); lra. Qed.

Lemma truediv_inv (a b q : Q) : truediv a b = inr q -> ~ (b == 0)%Q /\ q = (a / b)%Q.
Proof.
  unfold truediv. destruct (Qeq_bool b 0) eqn:E; [discriminate |].
  intros [= <-]. split; [apply Qeq_bool_neq; exact E | reflexivity].
Qed.

Lemma truediv_zero (a b : Q) : (b == 0)%Q -> truediv a b = inl ZeroDivisionError.
Proof. intros H. unfold truediv. rewrite (Qeq_eq_bool _ _ H). reflexivity. Qed.

Lemma truediv_nonzero (a b : Q) : ~ (b == 0)%Q -> truediv a b = inr (a / b)%Q.
Proof.
  intros H. unfold truediv. destruct (Qeq_bool b 0) eqn:E; [| reflexivity].
  apply Qeq_bool_eq in E. contradiction.
Qed.

Lemma inject_Z_nonzero (z : Z) : z <> 0 -> ~ (inject_Z z == 0)%Q.
Proof. intros Hz H. apply Hz. unfold Qeq in H. simpl in H. lia. Qed.

Lemma inject_Z_zero_inv (z : Z) : ~ (inject_Z z == 0)%Q -> z <> 0.
Proof. intros H ->. apply H. reflexivity. Qed.

(** [s >= n / d] with [d > 0] gives [d * s >= n]. *)
Lemma scaled_ge (n d s : Q) : (0 < d)%Q -> (n / d <= s)%Q -> (n <= d * s)%Q.
Proof.
  intros Hd Hs.
  assert (d * (n / d) == n)%Q as E by (field; lra).
  rewrite <- E. apply Qmult_le_l; assumption.
Qed.

Lemma Qmin_list_le (l : list Q) (x : Q) : (Qmin_list x l <= x)%Q.
Proof.
  unfold Qmin_list. revert x. induction l as [| a l IH]; intros x; simpl.
  - lra.
  - eapply Qle_trans; [apply IH | apply Q.le_min_l].
Qed.

Lemma Qmax_list_ge (l : list Q) (x : Q) : (x <= Qmax_list x l)%Q.
Proof.
  unfold Qmax_list. revert x. induction l as [| a l IH]; intros x; simpl.
  - lra.
  - eapply Qle_trans; [apply Q.le_max_l | apply IH].
Qed.

(** The bounding box of a quadrilateral is at least one pixel wide and high. *)
Lemma cv2_boundingRect_positive (pnts : Quad) x y w h :
  cv2_boundingRect pnts = (x, y, w, h) -> 1 <= w /\ 1 <= h.
Proof.
  unfold cv2_boundingRect. cbv zeta. intros H. injection H as _ _ Hw Hh.
  pose proof (Qmin_list_le (map fst (quad_points pnts)) (fst (left_top pnts))) as H1.
  pose proof (Qmax_list_ge (map fst (quad_points pnts)) (fst (left_top pnts))) as H2.
  pose proof (Qfloor_resp_le _ _ (Qle_trans _ _ _ H1 H2)).
  pose proof (Qmin_list_le (map snd (quad_points pnts)) (snd (left_top pnts))) as H3.
  pose proof (Qmax_list_ge (map snd (quad_points pnts)) (snd (left_top pnts))) as H4.
  pose proof (Qfloor_resp_le _ _ (Qle_trans _ _ _ H3 H4)).
  unfold Qmin_list, Qmax_list, quad_points in *. cbn [map fold_left] in *. lia.
Qed.

(* ================================================================== *)
(** * Crop and resize *)
(* ================================================================== *)

Section Crop.
Context {L : Imaging}.
Variable self : Renderer.

Lemma crop_scale_inv bx by_ bw bh dst_height scale :
  crop_scale self (bx, by_, bw, bh) dst_height = inr scale ->
  dst_height <> 0 /\ out_width self <> 0 /\
  scale = Py.max (inject_Z bh / inject_Z dst_height) (inject_Z bw / inject_Z (out_width self)).
Proof.
  unfold crop_scale.
  destruct (truediv (inject_Z bh) (inject_Z dst_height)) as [e | a] eqn:Ea;
    [discriminate |].
  destruct (truediv (inject_Z bw) (inject_Z (out_width self))) as [e | b] eqn:Eb;
    [discriminate |].
  apply truediv_inv in Ea as [Ha ->]. apply truediv_inv in Eb as [Hb ->].
  intros [= <-]. repeat split; apply inject_Z_zero_inv; assumption.
Qed.

(** What a successful run of lines 117 to 148 went through. *)
Lemma crop_rect_inv (pnts : Quad) w x y dw dh w' :
  crop_rect self pnts w = (inr (x, y, dw, dh), w') ->
  exists bx by_ bw bh dst_height scale,
    cv2_boundingRect pnts = (bx, by_, bw, bh) /\
    out_height self / 4 * 3 <= dst_height <= out_height self /\
    crop_scale self (bx, by_, bw, bh) dst_height = inr scale /\
    dw = int_around (inject_Z (out_width self) * scale) /\
    dh = int_around (inject_Z (out_height self) * scale).
Proof.
  unfold crop_rect.
  destruct (cv2_boundingRect pnts) as [[[bx by_] bw] bh] eqn:Eb.
  intros H.
  step H dst_height w1 Hd. step H scale w2 Hs.
  step H sw w3 Hsw. step H sh w4 Hsh. step H s0 w5 Hs0. step H s1 w6 Hs1.
  step H offsets w7 Hoff. destruct offsets as [x_offset y_offset].
  apply ret_inv in H as [H _].
  apply lift_inv in Hs as [Hs _].
  apply random_randint_range in Hd.
  exists bx, by_, bw, bh, dst_height, scale.
  repeat split; try (exact Hs || lia || congruence).
Qed.

(** With positive output dimensions the crop rectangle has at least the
    size of the bounding box, hence at least one pixel each way. *)
Lemma crop_rect_positive (pnts : Quad) w x y dw dh w' :
  0 < out_width self -> 0 < out_height self ->
  crop_rect self pnts w = (inr (x, y, dw, dh), w') ->
  1 <= dw /\ 1 <= dh.
Proof.
  intros Hw Hh H.
  apply crop_rect_inv in H
    as (bx & by_ & bw & bh & d & scale & Eb & Hd & Hs & -> & ->).
  apply cv2_boundingRect_positive in Eb as [Hbw Hbh].
  apply crop_scale_inv in Hs as (Hd0 & _ & ->).
  assert (0 < d) as Hdpos.
  { pose proof (Z.div_pos (out_height self) 4 ltac:(lia) ltac:(lia)). lia. }
  set (a := (inject_Z bh / inject_Z d)%Q).
  set (b := (inject_Z bw / inject_Z (out_width self))%Q).
  assert (0 < inject_Z d)%Q as Qd by q2z.
  assert (0 < inject_Z (out_width self))%Q as Qw by q2z.
  assert (inject_Z d <= inject_Z (out_height self))%Q as Qdh by q2z.
  assert (1 <= inject_Z bw)%Q as Qbw by q2z.
  assert (1 <= inject_Z bh)%Q as Qbh by q2z.
  pose proof (py_max_l a b) as Ha. pose proof (py_max_r a b) as Hb.
  split; unfold int_around, np_around; apply round_half_even_ge.
  - eapply Qle_trans; [exact Qbw |]. apply scaled_ge; [exact Qw | exact Hb].
  - assert (inject_Z bh <= inject_Z d * Py.max a b)%Q as H1
        by (apply scaled_ge; [exact Qd | exact Ha]).
    assert (0 <= Py.max a b)%Q as H2.
    { eapply Qle_trans; [| exact Ha]. unfold a.
      apply Qle_shift_div_l; [exact Qd | lra]. }
    assert (inject_Z d * Py.max a b <= inject_Z (out_height self) * Py.max a b)%Q as H3
        by (apply Qmult_le_compat_r; assumption).
    eapply Qle_trans; [exact Qbh |]. eapply Qle_trans; [exact H1 | exact H3].
Qed.

Lemma cv2_resize_error (src : image) width height interp :
  is_empty src = true \/ width <= 0 \/ height <= 0 ->
  cv2_resize src (width, height) interp = inl cv2_error.
Proof.
  intros H. unfold cv2_resize.
  destruct (is_empty src); [reflexivity |].
  destruct (Z.leb_spec width 0); [reflexivity |].
  destruct (Z.leb_spec height 0); [reflexivity |].
  destruct H as [H | [H | H]]; [discriminate | lia | lia].
Qed.

Lemma cv2_resize_ok (src : image) width height interp :
  is_empty src = false -> 0 < width -> 0 < height ->
  cv2_resize src (width, height) interp = inr (resample src width height interp) /\
  shape (resample src width height interp) = (height, width).
Proof.
  intros He Hw Hh. unfold cv2_resize. rewrite He.
  destruct (Z.leb_spec width 0); [lia |].
  destruct (Z.leb_spec height 0); [lia |].
  split; [reflexivity | apply shape_resample; assumption].
Qed.

Lemma is_empty_slice (img : image) y0 y1 x0 x1 :
  is_empty (np_slice img y0 y1 x0 x1)
  = (slice_len (rows img) y0 y1 <=? 0) || (slice_len (cols img) x0 x1 <=? 0).
Proof. unfold is_empty, rows, cols. rewrite shape_np_slice. reflexivity. Qed.

(** What [crop_img] gives once the rectangle is derived: the window
    [img[y:y+h, x:x+w]] decides.  A window that meets the raster is resized
    to exactly the output size; an empty window makes OpenCV raise. *)
Lemma crop_img_result (img : image) (pnts : Quad) w x y dw dh w' :
  0 < out_width self -> 0 < out_height self ->
  crop_rect self pnts w = (inr (x, y, dw, dh), w') ->
  (0 < slice_len (rows img) y (y + dh) /\ 0 < slice_len (cols img) x (x + dw) ->
   exists dst,
     crop_img self img pnts w = (inr (dst, (x, y, dw, dh)), w') /\
     shape dst = (out_height self, out_width self)) /\
  (slice_len (rows img) y (y + dh) = 0 \/ slice_len (cols img) x (x + dw) = 0 ->
   crop_img self img pnts w = (inl cv2_error, w')).
Proof.
  intros Hw Hh H. split.
  - intros [Hr Hc].
    destruct (@cv2_resize_ok (np_slice img y (y + dh) x (x + dw))
                (out_width self) (out_height self) INTER_CUBIC) as [E S]; try assumption.
    { rewrite is_empty_slice.
      destruct (Z.leb_spec (slice_len (rows img) y (y + dh)) 0); [lia |].
      destruct (Z.leb_spec (slice_len (cols img) x (x + dw)) 0); [lia |]. reflexivity. }
    eexists. split; [| exact S].
    unfold crop_img. erewrite bind_inr by exact H. cbv beta iota.
    unfold bind, lift. rewrite E. reflexivity.
  - intros Hz.
    unfold crop_img. erewrite bind_inr by exact H. cbv beta iota.
    unfold bind, lift. rewrite cv2_resize_error; [reflexivity |].
    left. rewrite is_empty_slice.
    destruct Hz as [-> | ->]; [reflexivity | apply orb_true_r].
Qed.

(** C3: a crop rectangle with zero or negative width or height can only
    come from a non-positive output size, and whenever one is derived
    [crop_img] raises OpenCV's error instead of returning a raster. *)
Theorem degenerate_crop_fails :
  forall (img : image) (pnts : Quad) w x y dw dh w',
    crop_rect self pnts w = (inr (x, y, dw, dh), w') ->
    dw <= 0 \/ dh <= 0 ->
    (out_width self <= 0 \/ out_height self <= 0) /\
    crop_img self img pnts w = (inl cv2_error, w').
Proof.
  intros img pnts w x y dw dh w' H Hdeg.
  assert (out_width self <= 0 \/ out_height self <= 0) as Hout.
  { destruct (Z.leb_spec (out_width self) 0) as [Hw | Hw]; [left; exact Hw |].
    destruct (Z.leb_spec (out_height self) 0) as [Hh | Hh]; [right; exact Hh |].
    pose proof (crop_rect_positive pnts w Hw Hh H). lia. }
  split; [exact Hout |].
  unfold crop_img. erewrite bind_inr by exact H. cbv beta iota.
  unfold bind, lift. rewrite cv2_resize_error; [reflexivity |].
  right. exact Hout.
Qed.

(** X20: every raster [crop_img] returns comes with a rectangle of positive size
    and has exactly the output size. *)
Lemma crop_img_returns (img dst : image) (pnts : Quad) w x y dw dh w' :
  crop_img self img pnts w = (inr (dst, (x, y, dw, dh)), w') ->
  0 < dw /\ 0 < dh /\ shape dst = (out_height self, out_width self).
Proof.
  unfold crop_img. intros H. step H rect w1 Hrect.
  destruct rect as [[[x1 y1] dw1] dh1].
  step H dst1 w2 Hres. apply ret_inv in H as [H _].
  apply lift_inv in Hres as [Hres ->].
  assert (dst1 = dst /\ x1 = x /\ y1 = y /\ dw1 = dw /\ dh1 = dh)
    as (-> & -> & -> & -> & ->) by (repeat split; congruence).
  unfold cv2_resize in Hres.
  destruct (is_empty (np_slice img y (y + dh) x (x + dw))); [discriminate |].
  destruct (Z.leb_spec (out_width self) 0) as [Hw | Hw]; [discriminate |].
  destruct (Z.leb_spec (out_height self) 0) as [Hh | Hh]; [discriminate |].
  simpl in Hres. injection Hres as <-.
  pose proof (crop_rect_positive pnts w Hw Hh Hrect).
  repeat split; try lia. apply shape_resample; assumption.
Qed.

End Crop.

(** The theorem at work: a renderer built with width -256 derives a
    rectangle 160 pixels "wide" to the left, and [crop_img] raises. *)
Lemma degenerate_crop_fails_witness :
  crop_rect (renderer_of [grey_bg] plain_cfg (-256) 32 false) text_quad (world_of [8] [])
  = (inr (150, 40, -160, 20), world_of [] []) /\
  (-160 <= 0 \/ 20 <= 0) /\
  (out_width (renderer_of [grey_bg] plain_cfg (-256) 32 false) <= 0 \/
   out_height (renderer_of [grey_bg] plain_cfg (-256) 32 false) <= 0) /\
  crop_img (renderer_of [grey_bg] plain_cfg (-256) 32 false) (mkRaster 100 400 128)
           text_quad (world_of [8] [])
  = (inl cv2_error, world_of [] []).
Proof.
  split; [reflexivity |]. split; [left; lia |].
  apply (@degenerate_crop_fails uniform_imaging
           (renderer_of [grey_bg] plain_cfg (-256) 32 false) (mkRaster 100 400 128)
           text_quad (world_of [8] []) 150 40 (-160) 20 (world_of [] [])).
  - reflexivity.
  - left. lia.
Defined.

(** With the default output size the same text box is cropped and resized
    to exactly 256 by 32. *)
Example crop_img_default_size :
  crop_img (renderer_of [grey_bg] plain_cfg 256 32 false) (mkRaster 100 400 128)
           text_quad (world_of [8; 0] [])
  = (inr (mkRaster 32 256 128, (150, 40, 160, 20)), world_of [] []).
Proof. reflexivity. Qed.

Section CropOutside.
Context {L : Imaging}.

(** C2, on the code: output 256 by 32, a raster of 100 rows and 400
    columns, the text box [left_quad] starting 20 pixels left of it.  The
    crop rectangle starts at column -20, the slice [-20:140] wraps to
    [380:140] and is empty, and [cv2.resize] raises: no raster is returned. *)
Theorem crop_left_of_raster_raises :
  forall (self : Renderer) (img : image),
    out_width self = 256 -> out_height self = 32 -> shape img = (100, 400) ->
    crop_rect self left_quad (world_of [8; 0] [])
    = (inr (-20, 10, 160, 20), world_of [] []) /\
    crop_img self img left_quad (world_of [8; 0] []) = (inl cv2_error, world_of [] []).
Proof.
  intros self img Hw Hh Hs.
  assert (crop_rect self left_quad (world_of [8; 0] [])
          = (inr (-20, 10, 160, 20), world_of [] [])) as Hrect.
  { destruct self. simpl in Hw, Hh. subst. reflexivity. }
  split; [exact Hrect |].
  assert (0 < out_width self) as Hw0 by lia.
  assert (0 < out_height self) as Hh0 by lia.
  apply (proj2 (@crop_img_result L self img left_quad _ _ _ _ _ _ Hw0 Hh0 Hrect)).
  right. unfold cols. rewrite Hs. reflexivity.
Qed.

End CropOutside.

(** The theorem at work on a uniform raster. *)
Lemma crop_left_of_raster_raises_witness :
  out_width (renderer_of [grey_bg] plain_cfg 256 32 false) = 256 /\
  out_height (renderer_of [grey_bg] plain_cfg 256 32 false) = 32 /\
  shape (mkRaster 100 400 128) = (100, 400) /\
  crop_rect (renderer_of [grey_bg] plain_cfg 256 32 false) left_quad (world_of [8; 0] [])
  = (inr (-20, 10, 160, 20), world_of [] []) /\
  crop_img (renderer_of [grey_bg] plain_cfg 256 32 false) (mkRaster 100 400 128)
           left_quad (world_of [8; 0] [])
  = (inl cv2_error, world_of [] []).
Proof.
  split; [reflexivity |]. split; [reflexivity |]. split; [reflexivity |].
  apply (@crop_left_of_raster_raises uniform_imaging
           (renderer_of [grey_bg] plain_cfg 256 32 false) (mkRaster 100 400 128));
    reflexivity.
Defined.

(* ================================================================== *)
(** * Backgrounds from stock images *)
(* ================================================================== *)

(** A ratio of positive integers is below 1 exactly when the numerator is
    below the denominator. *)
Lemma ratio_lt_one (n d : Z) : 0 < d -> (inject_Z n / inject_Z d < 1)%Q <-> n < d.
Proof.
  intros Hd. assert (0 < inject_Z d)%Q as Qd by q2z. split.
  - intros H.
    assert (inject_Z n / inject_Z d * inject_Z d == inject_Z n)%Q as E by (field; lra).
    assert (inject_Z n / inject_Z d * inject_Z d < 1 * inject_Z d)%Q as H1
        by (apply Qmult_lt_compat_r; assumption).
    rewrite Zlt_Qlt. lra.
  - intros H. apply Qlt_shift_div_r; [exact Qd |]. rewrite Zlt_Qlt in H. lra.
Qed.

Lemma py_max_lt (a b c : Q) : (Py.max a b < c)%Q <-> (a < c /\ b < c)%Q.
Proof. unfold Py.max. destruct (Qlt_le_dec a b); split; intros; try split; lra. Qed.

Section Background.
Context {L : Imaging}.

Lemma is_empty_false (img : image) : 0 < rows img -> 0 < cols img -> is_empty img = false.
Proof.
  intros Hr Hc. unfold is_empty.
  destruct (Z.leb_spec (rows img) 0); [lia |].
  destruct (Z.leb_spec (cols img) 0); [lia |]. reflexivity.
Qed.

Lemma bg_scale_value (bg : image) width height :
  0 < rows bg -> 0 < cols bg ->
  bg_scale width height bg
  = inr (Py.max (inject_Z width / inject_Z (cols bg)) (inject_Z height / inject_Z (rows bg))).
Proof.
  intros Hr Hc. unfold bg_scale.
  rewrite !truediv_nonzero by (apply inject_Z_nonzero; lia). reflexivity.
Qed.

(** The resize of line 324 succeeds and covers the target. *)
Lemma bg_resize_covers (bg : image) width height :
  0 < rows bg -> 0 < cols bg -> 0 < width -> 0 < height ->
  exists out,
    cv2_resize_scaled bg
      (Py.max (inject_Z width / inject_Z (cols bg)) (inject_Z height / inject_Z (rows bg)))
      (Py.max (inject_Z width / inject_Z (cols bg)) (inject_Z height / inject_Z (rows bg)))
    = inr out /\
    height <= rows out /\ width <= cols out.
Proof.
  intros Hr Hc Hw Hh.
  set (a := (inject_Z width / inject_Z (cols bg))%Q).
  set (b := (inject_Z height / inject_Z (rows bg))%Q).
  assert (0 < inject_Z (cols bg))%Q as Qc by q2z.
  assert (0 < inject_Z (rows bg))%Q as Qr by q2z.
  assert (1 <= inject_Z width)%Q as Qw by q2z.
  assert (1 <= inject_Z height)%Q as Qh by q2z.
  pose proof (py_max_l a b) as Ha. pose proof (py_max_r a b) as Hb.
  assert (inject_Z width <= inject_Z (cols bg) * Py.max a b)%Q as Hcols
      by (apply scaled_ge; assumption).
  assert (inject_Z height <= inject_Z (rows bg) * Py.max a b)%Q as Hrows
      by (apply scaled_ge; assumption).
  assert (0 < Py.max a b)%Q as Hpos.
  { eapply Qlt_le_trans; [| exact Ha]. unfold a.
    apply Qlt_shift_div_l; [exact Qc | lra]. }
  pose proof (round_half_even_ge Hcols) as Hcw.
  pose proof (round_half_even_ge Hrows) as Hrh.
  set (out := resample bg (cvRound (inject_Z (cols bg) * Py.max a b))
                       (cvRound (inject_Z (rows bg) * Py.max a b)) INTER_LINEAR).
  assert (shape out = (cvRound (inject_Z (rows bg) * Py.max a b),
                       cvRound (inject_Z (cols bg) * Py.max a b))) as Hshape
      by (apply shape_resample; unfold cvRound; lia).
  assert (rows out = cvRound (inject_Z (rows bg) * Py.max a b)) as Erows
      by (unfold rows at 1; rewrite Hshape; reflexivity).
  assert (cols out = cvRound (inject_Z (cols bg) * Py.max a b)) as Ecols
      by (unfold cols at 1; rewrite Hshape; reflexivity).
  exists out. split; [| split].
  - unfold cv2_resize_scaled. rewrite (@is_empty_false bg Hr Hc).
    replace (Qle_bool (Py.max a b) 0) with false.
    + apply cv2_resize_ok; [apply is_empty_false; assumption | |]; unfold cvRound; lia.
    + symmetry. apply not_true_is_false. intros E. apply Qle_bool_imp_le in E. lra.
  - rewrite Erows. exact Hrh.
  - rewrite Ecols. exact Hcw.
Qed.

(** C5, as the code has it: for a stock image with at least one pixel and a
    target of positive size, the resize factor is
    [max(width / bg_width, height / bg_height)], the resize succeeds, and
    both dimensions of the result are at least the target's.  The factor is
    below 1, a downscale, exactly when the stock image exceeds the target in
    both dimensions. *)
Theorem bg_resize_covers_target :
  forall (bg : image) width height,
    0 < rows bg -> 0 < cols bg -> 0 < width -> 0 < height ->
    exists scale out,
      bg_scale width height bg = inr scale /\
      cv2_resize_scaled bg scale scale = inr out /\
      height <= rows out /\ width <= cols out /\
      ((scale < 1)%Q <-> width < cols bg /\ height < rows bg).
Proof.
  intros bg width height Hr Hc Hw Hh.
  destruct (bg_resize_covers bg Hr Hc Hw Hh) as (out & Hres & Hrows & Hcols).
  eexists. exists out.
  split; [apply bg_scale_value; assumption |].
  split; [exact Hres |]. split; [exact Hrows |]. split; [exact Hcols |].
  rewrite py_max_lt.
  rewrite (ratio_lt_one width Hc), (ratio_lt_one height Hr). reflexivity.
Qed.

End Background.

(** The theorem at work: a 100 by 100 stock image and the target 16 by 8. *)
Lemma bg_resize_covers_target_witness :
  0 < rows grey_bg /\ 0 < cols grey_bg /\ 0 < 16 /\ 0 < 8 /\
  exists scale out,
    bg_scale 16 8 grey_bg = inr scale /\
    cv2_resize_scaled grey_bg scale scale = inr out /\
    8 <= rows out /\ 16 <= cols out /\
    ((scale < 1)%Q <-> 16 < cols grey_bg /\ 8 < rows grey_bg).
Proof.
  repeat (split; [reflexivity |]).
  apply (@bg_resize_covers_target uniform_imaging grey_bg 16 8); reflexivity.
Defined.

(** C5 as the specification words it fails: the 100 by 100 stock image is
    resized by the factor 16/100 for the target 16 by 8, a downscale to 16
    by 16. *)
Lemma stock_background_downscaled :
  bg_scale 16 8 grey_bg = inr (16 # 100) /\
  (16 # 100 < 1)%Q /\
  cv2_resize_scaled grey_bg (16 # 100) (16 # 100) = inr (mkRaster 16 16 128).
Proof. repeat split. Qed.

(* ================================================================== *)
(** * [gen_bg_from_image], step by step *)
(* ================================================================== *)

Lemma random_choice_total {A} (seq : list A) w :
  seq <> [] -> exists x w', random_choice seq w = (inr x, w') /\ In x seq.
Proof.
  intros Hne. destruct seq as [| x0 rest]; [contradiction |].
  destruct (py_next_total w) as (r & w' & Hr).
  eexists. exists w'. split.
  - unfold random_choice. erewrite bind_inr by exact Hr. reflexivity.
  - apply nth_In.
    pose proof (Z.mod_pos_bound r (Z.of_nat (List.length (x0 :: rest)))
                  ltac:(simpl List.length; lia)).
    lia.
Qed.

(** The offsets of [random_xy_offset] stay within the slack of each axis. *)
Lemma random_xy_offset_total src_height src_width dst_height dst_width w :
  exists x_offset y_offset w',
    random_xy_offset src_height src_width dst_height dst_width w
    = (inr (x_offset, y_offset), w') /\
    0 <= x_offset <= Z.max 0 (dst_width - src_width) /\
    0 <= y_offset <= Z.max 0 (dst_height - src_height).
Proof.
  unfold random_xy_offset.
  set (ymax := if dst_height >? src_height then dst_height - src_height else 0).
  set (xmax := if dst_width >? src_width then dst_width - src_width else 0).
  assert (ymax = Z.max 0 (dst_height - src_height)) as Ey
      by (unfold ymax; destruct (Z.gtb_spec dst_height src_height); lia).
  assert (xmax = Z.max 0 (dst_width - src_width)) as Ex
      by (unfold xmax; destruct (Z.gtb_spec dst_width src_width); lia).
  assert (exists y w1,
             (if negb (ymax =? 0) then random_randint 0 ymax else ret 0) w = (inr y, w1) /\
             0 <= y <= ymax) as (y & w1 & Hy & Hyr).
  { destruct (Z.eqb_spec ymax 0) as [E | E]; simpl.
    - exists 0, w. split; [reflexivity | lia].
    - apply random_randint_total. lia. }
  assert (exists x w2,
             (if negb (xmax =? 0) then random_randint 0 xmax else ret 0) w1 = (inr x, w2) /\
             0 <= x <= xmax) as (x & w2 & Hx & Hxr).
  { destruct (Z.eqb_spec xmax 0) as [E | E]; simpl.
    - exists 0, w1. split; [reflexivity | lia].
    - apply random_randint_total. lia. }
  exists x, y, w2. split; [| lia].
  erewrite bind_inr by exact Hy. erewrite bind_inr by exact Hx. reflexivity.
Qed.

Lemma slice_len_inside n start len :
  0 <= start -> 0 <= len -> start + len <= n -> slice_len n start (start + len) = len.
Proof.
  intros Hs Hl Hn. unfold slice_len, slice_index.
  destruct (Z.ltb_spec (start + len) 0); destruct (Z.ltb_spec start 0); lia.
Qed.

(** [int] of a float equal to zero is 0. *)
Lemma py_int_zero (x : Q) : (x == 0)%Q -> Py.int x = 0.
Proof.
  unfold Py.int, Qeq. simpl. intros H.
  replace (Qnum x) with 0 by lia. reflexivity.
Qed.

(** On a float that is not negative, [int] is the floor. *)
Lemma py_int_nonneg (x : Q) : (0 <= x)%Q -> Py.int x = Qfloor x.
Proof.
  destruct x as [n d]. unfold Py.int, Qle. simpl. intros H.
  apply Z.quot_div_nonneg; lia.
Qed.

Section StockBackground.
Context {L : Imaging}.
Variable self : Renderer.

Lemma apply_gauss_blur_total (img : image) (ks : list Z) w :
  ks <> [] ->
  exists ksize sigma w', apply_gauss_blur img (Some ks) w
                         = (inr (cv2_GaussianBlur img ksize sigma), w').
Proof.
  intros Hne. unfold apply_gauss_blur.
  destruct (random_choice_total w Hne) as (ksize & w1 & Hk & _).
  erewrite bind_inr by exact Hk.
  destruct (ksize <=? 3).
  - destruct (@random_choice_total Z [0; 1; 2; 3; 4; 5; 6; 7] w1 ltac:(discriminate))
      as (sigma & w2 & Hs & _).
    exists ksize, sigma, w2. erewrite bind_inr by exact Hs. reflexivity.
  - exists ksize, 0, w1. reflexivity.
Qed.

Lemma cv2_resize_scaled_inv (src out : image) fx fy :
  cv2_resize_scaled src fx fy = inr out ->
  exists w h, out = resample src w h INTER_LINEAR /\ shape out = (h, w) /\
              0 < w /\ 0 < h /\ 0 < rows src /\ 0 < cols src.
Proof.
  unfold cv2_resize_scaled, cv2_resize.
  destruct (is_empty src) eqn:He; [discriminate |]. simpl.
  destruct (Qle_bool fx 0 || Qle_bool fy 0); [discriminate |].
  set (w := cvRound (inject_Z (cols src) * fx)).
  set (h := cvRound (inject_Z (rows src) * fy)).
  destruct (Z.leb_spec w 0); [discriminate |].
  destruct (Z.leb_spec h 0); [discriminate |].
  simpl. intros [= <-]. exists w, h.
  unfold is_empty in He. apply orb_false_elim in He as [H1 H2].
  apply Z.leb_gt in H1, H2.
  repeat split; try assumption. apply shape_resample; assumption.
Qed.

(** The run of [gen_bg_from_image] up to the blurred window: for a
    landscape target of positive height and a pool of non-empty stock
    images, a stock image is picked and resized, and a window of exactly
    the target size is cut from it and blurred; what is left is the
    contrast and brightness normalisation of lines 332 to 336. *)
Lemma gen_bg_from_image_window width height w :
  height < width -> 0 < height -> bgs self <> [] ->
  (forall bg, In bg (bgs self) -> 0 < rows bg /\ 0 < cols bg) ->
  exists bg rw rh x y ksize sigma w1,
    In bg (bgs self) /\
    let resized := resample bg rw rh INTER_LINEAR in
    let window := cv2_GaussianBlur (np_slice resized y (y + height) x (x + width))
                                   ksize sigma in
    0 < rh /\ 0 < rw /\
    shape window = (height, width) /\
    gen_bg_from_image self width height w
    = (bg_mean <- lift (int_of_float (np_mean_float window)) ;;
       alpha <- lift (truediv 255 (inject_Z bg_mean)) ;;
       beta <- np_random_randint (bg_mean / 2) bg_mean ;;
       ret (np_uint8 (np_clip (np_scale_add alpha window (inject_Z beta)) 0 255))) w1.
Proof.
  intros Hwh Hh Hne Hbgs.
  destruct (random_choice_total w Hne) as (bg & w0 & Hbg & Hin).
  destruct (Hbgs bg Hin) as [Hr Hc].
  pose proof (bg_scale_value bg width height Hr Hc) as Hscale.
  destruct (@bg_resize_covers L bg width height Hr Hc ltac:(lia) Hh)
    as (resized & Hres & Hrows & Hcols).
  destruct (cv2_resize_scaled_inv _ _ _ Hres) as (rw & rh & -> & Hshape & Hrw & Hrh & _).
  set (resized := resample bg rw rh INTER_LINEAR) in *.
  destruct (random_xy_offset_total height width (rows resized) (cols resized) w0)
    as (x & y & w1 & Hoff & Hx & Hy).
  set (cut := np_slice resized y (y + height) x (x + width)).
  destruct (@apply_gauss_blur_total cut [7; 11; 13; 15; 17] w1 ltac:(discriminate))
    as (ksize & sigma & w2 & Hblur).
  exists bg, rw, rh, x, y, ksize, sigma, w2.
  split; [exact Hin |]. cbv zeta. fold resized. fold cut.
  split; [exact Hrh |]. split; [exact Hrw |]. split.
  - rewrite shape_GaussianBlur. unfold cut. rewrite shape_np_slice.
    fold (rows resized). fold (cols resized).
    rewrite !slice_len_inside by lia. reflexivity.
  - unfold gen_bg_from_image. unfold py_assert.
    replace (width >? height) with true by (symmetry; apply Z.gtb_lt; lia).
    unfold bind at 1. unfold ret at 1.
    erewrite bind_inr by exact Hbg.
    unfold bind at 1. unfold lift at 1. rewrite Hscale.
    unfold bind at 1. unfold lift at 1. rewrite Hres.
    erewrite bind_inr by exact Hoff. cbv beta iota. fold cut.
    erewrite bind_inr by exact Hblur. reflexivity.
Qed.

End StockBackground.

Section StockBackgroundOutcome.
Context {L : Imaging}.
Variable self : Renderer.

(** A request that is not landscape fails the assertion of line 318. *)
Lemma gen_bg_from_image_asserts width height w :
  width <= height -> gen_bg_from_image self width height w = (inl AssertionError, w).
Proof.
  intros H. unfold gen_bg_from_image, py_assert.
  destruct (Z.gtb_spec width height); [lia | reflexivity].
Qed.

Lemma shape_not_empty (img : image) h w :
  shape img = (h, w) -> 0 < h -> 0 < w -> is_empty img = false.
Proof.
  intros Hs Hh Hw. apply is_empty_false; unfold rows, cols; rewrite Hs; assumption.
Qed.


(** C4, on the code: a landscape target of positive height and a pool of
    black stock images.  The blurred window is black, its integer mean is 0,
    and [alpha = 255 / bg_mean] raises [ZeroDivisionError] where the
    specification has a raster of the requested size. *)
Theorem black_background_raises :
  forall width height w,
    height < width -> 0 < height -> bgs self <> [] ->
    (forall bg, In bg (bgs self) -> 0 < rows bg /\ 0 < cols bg /\ black bg) ->
    exists w', gen_bg_from_image self width height w = (inl ZeroDivisionError, w').
Proof.
  intros width height w Hwh Hh Hne Hbgs.
  assert (forall bg, In bg (bgs self) -> 0 < rows bg /\ 0 < cols bg) as Hdims
      by (intros bg Hin; destruct (Hbgs bg Hin) as (? & ? & _); split; assumption).
  destruct (gen_bg_from_image_window self w Hwh Hh Hne Hdims)
    as (bg & rw & rh & x & y & ksize & sigma & w1 & Hin & _ & _ & Hshape & Hrun).
  cbv zeta in Hshape, Hrun.
  destruct (Hbgs bg Hin) as (Hr & Hc & Hblack).
  set (window := cv2_GaussianBlur
                   (np_slice (resample bg rw rh INTER_LINEAR) y (y + height) x (x + width))
                   ksize sigma) in *.
  assert (black window) as Hbw.
  { unfold window, black. apply black_GaussianBlur, black_np_slice, black_resample.
    - exact Hr.
    - exact Hc.
    - exact Hblack. }
  assert (np_mean window == 0)%Q as Hzero.
  { apply black_np_mean; [exact Hbw | |]; rewrite Hshape; simpl; lia. }
  assert (is_empty window = false) as Hemp
      by (apply shape_not_empty with (h := height) (w := width); [exact Hshape | lia | lia]).
  exists w1. rewrite Hrun.
  unfold bind at 1. unfold lift at 1. unfold np_mean_float. rewrite Hemp.
  unfold int_of_float. rewrite py_int_zero by exact Hzero.
  unfold bind at 1. unfold lift at 1. rewrite truediv_zero by reflexivity.
  reflexivity.
Qed.

End StockBackgroundOutcome.

(** The theorem at work: one black stock image of 100 by 100, target 16 by 8. *)
Lemma black_background_raises_witness :
  8 < 16 /\ 0 < 8 /\
  exists w',
    gen_bg_from_image (renderer_of [black_bg] plain_cfg 256 32 false) 16 8
                      (world_of [0; 3; 1] [])
    = (inl ZeroDivisionError, w').
Proof.
  split; [lia |]. split; [lia |].
  apply (@black_background_raises uniform_imaging
           (renderer_of [black_bg] plain_cfg 256 32 false) 16 8 (world_of [0; 3; 1] [])).
  - lia.
  - lia.
  - discriminate.
  - intros bg [<- | []]. split; [reflexivity |]. split; [reflexivity |].
    intros i j v Hv. apply r_pixel_Some in Hv as [-> _]. reflexivity.
Defined.

(** On a grey stock image the same request is served at its exact size. *)
Example grey_background_served :
  gen_bg_from_image (renderer_of [grey_bg] plain_cfg 256 32 false) 16 8
                    (world_of [0; 3; 1] [5])
  = (inr (mkRaster 8 16 255), world_of [] []).
Proof. reflexivity. Qed.

(* ================================================================== *)
(** * Random spacing between characters *)
(* ================================================================== *)

Lemma fold_max_nonneg (l : list Z) : 0 <= fold_right Z.max 0 l.
Proof. induction l as [| z l IH]; cbn [fold_right]; lia. Qed.

(** A draw of [numpy.random.uniform(low, high)] lies between its bounds. *)
Lemma np_random_uniform_total (low high : Q) w :
  exists u w',
    np_random_uniform low high w = (inr u, w') /\
    ((low <= high)%Q -> (low <= u /\ u <= high)%Q).
Proof.
  destruct (np_next_total w) as (r & w' & Hr).
  exists (low + (high - low) * unit_float r)%Q, w'. split.
  - unfold np_random_uniform. erewrite bind_inr by exact Hr. reflexivity.
  - intros Hlh. destruct (unit_float_range r) as [H0 H1].
    assert (0 <= (high - low) * unit_float r)%Q as Ha
        by (apply Qmult_le_0_compat; lra).
    assert ((high - low) * unit_float r <= (high - low) * 1)%Q as Hb
        by (apply Qmult_le_compat_nonneg; split; lra).
    split; lra.
Qed.

Section RandomSpace.
Context {L : Imaging}.
Variable self : Renderer.

(** The measuring loop adds up the widths and keeps the largest height. *)
Lemma measure_loop (font : font) (cs : list string) width height sizes y_offset :
  0 <= height ->
  exists y_offset',
    fold_left (measure_char font) cs (width, height, sizes, y_offset)
    = (width + fold_right Z.add 0 (map (fun c => fst (font_getsize font c)) cs),
       Z.max height (fold_right Z.max 0 (map (fun c => snd (font_getsize font c)) cs)),
       sizes ++ map (font_getsize font) cs,
       y_offset').
Proof.
  revert width height sizes y_offset.
  induction cs as [| c cs IH]; intros width height sizes y_offset Hh.
  - exists y_offset. simpl. rewrite app_nil_r.
    apply f_equal2; [apply f_equal2; [apply f_equal2 |] |]; try reflexivity; lia.
  - simpl fold_left.
    destruct (IH (width + fst (font_getsize font c))
                 (if snd (font_getsize font c) >? height
                  then snd (font_getsize font c) else height)
                 (sizes ++ [font_getsize font c])
                 (if snd (font_getoffset font c) <? y_offset
                  then snd (font_getoffset font c) else y_offset))
      as (y' & E).
    { destruct (Z.gtb_spec (snd (font_getsize font c)) height); lia. }
    exists y'. rewrite E. simpl map. simpl fold_right.
    rewrite <- app_assoc. simpl app.
    apply f_equal2; [apply f_equal2; [apply f_equal2 |] |]; try reflexivity.
    + lia.
    + destruct (Z.gtb_spec (snd (font_getsize font c)) height); lia.
Qed.

(** C7, as the code has it: the gap is [int(height * u)], the product
    truncated toward zero (its floor when it is not negative), where
    [height] is the largest character height and [u] is drawn within the
    configured fractions; the returned width is the sum of the character
    widths plus [len(word) - 1] gaps, and the returned height is [height]. *)
Theorem random_space_gap_and_width :
  forall (draw : image) (font : font) (word : string) word_color bg_width bg_height w,
  exists u draw' text_x text_y w',
    np_random_uniform (cfg_random_space_min (cfg self))
                      (cfg_random_space_max (cfg self)) w = (inr u, w') /\
    ((cfg_random_space_min (cfg self) <= cfg_random_space_max (cfg self))%Q ->
     (cfg_random_space_min (cfg self) <= u /\ u <= cfg_random_space_max (cfg self))%Q) /\
    ((0 <= inject_Z (max_char_height font word) * u)%Q ->
     Py.int (inject_Z (max_char_height font word) * u)
     = Qfloor (inject_Z (max_char_height font word) * u)) /\
    draw_text_with_random_space self draw font word word_color bg_width bg_height w
    = (inr (draw',
            (text_x, text_y,
             sum_char_widths font word
             + Py.int (inject_Z (max_char_height font word) * u)
               * (Z.of_nat (String.length word) - 1),
             max_char_height font word)), w').
Proof.
  intros draw font word word_color bg_width bg_height w.
  destruct (np_random_uniform_total (cfg_random_space_min (cfg self))
                                    (cfg_random_space_max (cfg self)) w)
    as (u & w1 & Hu & Hrange).
  destruct (@measure_loop font (chars word) 0 0 [] (10 ^ 5) ltac:(lia)) as (y_offset & Hloop).
  unfold draw_text_with_random_space. rewrite Hloop.
  erewrite bind_inr by exact Hu.
  fold (sum_char_widths font word). fold (max_char_height font word).
  assert (0 <= max_char_height font word) as Hh.
  { unfold max_char_height. apply fold_max_nonneg. }
  rewrite (Z.max_r 0 _ Hh). rewrite Z.add_0_l.
  match goal with
  | |- context [fold_left ?f ?l ?a] => destruct (fold_left f l a) as [draw' c_x]
  end.
  exists u, draw'. do 2 eexists. exists w1.
  split; [exact Hu |]. split; [exact Hrange |].
  split; [apply py_int_nonneg |]. reflexivity.
Qed.

End RandomSpace.

(** One run: two characters 2 wide and 4 high, [u = 0.6875], gap 2, width 6. *)
Example random_space_run :
  draw_text_with_random_space (renderer_of [grey_bg] spaced_cfg 256 32 false)
    (mkRaster 32 32 200) (mkFont "mono.ttf" 4) "ab" 0 32 32
    (world_of [] [2 ^ 52])
  = (inr (mkRaster 32 32 200, (13, 14, 6, 4)), world_of [] []).
Proof. reflexivity. Qed.

(** C7 as the specification words it fails: with [height = 4] and the draw
    [u = 0.6875] the product is 2.75; the code's gap is 2 and the width 6,
    where rounding would give a gap of 3. *)
Lemma random_space_gap_truncated :
  max_char_height (mkFont "mono.ttf" 4) "ab" = 4 /\
  match np_random_uniform (1 # 2) (7 # 8) (world_of [] [2 ^ 52]) with
  | (inr u, _) =>
      (u == 11 # 16)%Q /\
      Py.round (inject_Z 4 * u) = 3 /\
      Py.int (inject_Z 4 * u) = 2
  | (inl _, _) => False
  end /\
  draw_text_with_random_space (renderer_of [grey_bg] spaced_cfg 256 32 false)
    (mkRaster 32 32 200) (mkFont "mono.ttf" 4) "ab" 0 32 32
    (world_of [] [2 ^ 52])
  = (inr (mkRaster 32 32 200, (13, 14, 6, 4)), world_of [] []).
Proof. vm_compute. repeat split. Qed.

(* ================================================================== *)
(** * Picking a font *)
(* ================================================================== *)

Section PickFont.
Context {L : Imaging} {C : Collaborators}.


End PickFont.

(* ================================================================== *)
(** * Placing a rectangle: [random_xy_offset] *)
(* ================================================================== *)

(** X1: [random_xy_offset] always returns, and a rectangle that is not
    larger than the frame is placed inside it: the offsets are not negative
    and the rectangle ends within the frame on both axes. *)
Theorem random_xy_offset_fits :
  forall src_height src_width dst_height dst_width w,
    src_height <= dst_height -> src_width <= dst_width ->
    exists x_offset y_offset w',
      random_xy_offset src_height src_width dst_height dst_width w
      = (inr (x_offset, y_offset), w') /\
      0 <= x_offset /\ x_offset + src_width <= dst_width /\
      0 <= y_offset /\ y_offset + src_height <= dst_height.
Proof.
  intros sh sw dh dw w Hh Hw.
  destruct (random_xy_offset_total sh sw dh dw w) as (x & y & w' & E & Hx & Hy).
  exists x, y, w'. split; [exact E |]. lia.
Qed.

Lemma random_xy_offset_fits_witness :
  8 <= 16 /\ 16 <= 16 /\
  exists x_offset y_offset w',
    random_xy_offset 8 16 16 16 (world_of [3] []) = (inr (x_offset, y_offset), w') /\
    0 <= x_offset /\ x_offset + 16 <= 16 /\ 0 <= y_offset /\ y_offset + 8 <= 16.
Proof.
  split; [lia |]. split; [lia |].
  apply (@random_xy_offset_fits 8 16 16 16 (world_of [3] [])); lia.
Defined.

(** X2: when the frame is not larger than the rectangle on either axis,
    the offset is (0, 0) and no random number is drawn: the generator is
    left as it was. *)
Theorem random_xy_offset_no_slack :
  forall src_height src_width dst_height dst_width w,
    dst_height <= src_height -> dst_width <= src_width ->
    random_xy_offset src_height src_width dst_height dst_width w = (inr (0, 0), w).
Proof.
  intros sh sw dh dw w Hh Hw. unfold random_xy_offset.
  destruct (Z.gtb_spec dh sh); [lia |].
  destruct (Z.gtb_spec dw sw); [lia |].
  reflexivity.
Qed.

Lemma random_xy_offset_no_slack_witness :
  32 <= 40 /\ 256 <= 300 /\
  random_xy_offset 40 300 32 256 (world_of [5; 6] []) = (inr (0, 0), world_of [5; 6] []).
Proof.
  split; [lia |]. split; [lia |].
  apply (@random_xy_offset_no_slack 40 300 32 256 (world_of [5; 6] [])); lia.
Defined.

(* ================================================================== *)
(** * The ink: [get_word_color] *)
(* ================================================================== *)

Lemma py_int_mono (x y : Q) : (0 <= x)%Q -> (x <= y)%Q -> Py.int x <= Py.int y.
Proof.
  intros Hx Hxy. rewrite !py_int_nonneg by lra. apply Qfloor_resp_le. exact Hxy.
Qed.

Section WordColor.
Context {L : Imaging}.

(** The region [get_word_color] averages: the word and a margin of 10. *)
Definition word_roi (bg : image) (text_x text_y word_height word_width : Z) : image :=
  np_slice bg (text_y - 10) (text_y + word_height + 10)
              (text_x - 10) (text_x + word_width + 10).

(** X3: when the region under the word has a pixel and a mean that is not
    negative, [get_word_color] returns an ink value from 0 to
    [int(mean * 2 / 3)], hence never above the mean of the region. *)
Theorem get_word_color_range :
  forall (bg : image) text_x text_y word_height word_width w,
    is_empty (word_roi bg text_x text_y word_height word_width) = false ->
    (0 <= np_mean (word_roi bg text_x text_y word_height word_width))%Q ->
    exists word_color w',
      get_word_color bg text_x text_y word_height word_width w = (inr word_color, w') /\
      0 <= word_color <=
        Py.int (np_mean (word_roi bg text_x text_y word_height word_width) * (2 / 3)) /\
      (inject_Z word_color
       <= np_mean (word_roi bg text_x text_y word_height word_width))%Q.
Proof.
  intros bg tx ty wh ww w Hne Hmean.
  set (roi := word_roi bg tx ty wh ww) in *.
  set (m := np_mean roi) in *.
  assert (get_word_color bg tx ty wh ww w
          = random_randint 0 (Py.int (m * (2 / 3))) w) as Hrun.
  { unfold get_word_color. cbv zeta. fold (word_roi bg tx ty wh ww). fold roi.
    unfold bind at 1. unfold lift at 1. unfold np_mean_float. rewrite Hne.
    reflexivity. }
  rewrite Hrun. clear Hrun.
  change (2 / 3)%Q with (2 # 3).
  assert (0 <= m * (2 # 3))%Q as Hm by lra.
  assert (0 <= Py.int (m * (2 # 3))) as Hint.
  { rewrite py_int_nonneg by exact Hm.
    apply Qfloor_resp_le in Hm. exact Hm. }
  destruct (random_randint_total w Hint) as (c & w' & Hc & Hrange).
  exists c, w'. split; [exact Hc |]. split; [exact Hrange |].
  assert (inject_Z (Py.int (m * (2 # 3))) <= m * (2 # 3))%Q as Hfl
      by (rewrite py_int_nonneg by exact Hm; apply Qfloor_le).
  assert (inject_Z c <= inject_Z (Py.int (m * (2 # 3))))%Q as Hcq
      by (rewrite <- Zle_Qle; lia).
  lra.
Qed.

(** X4: when the region under the word has no pixel, which a word closer
    than 10 pixels to the left or upper edge of a wide background brings
    about through the negative slice start, its mean is nan and
    [get_word_color] raises [ValueError] without drawing. *)
Theorem get_word_color_empty_roi :
  forall (bg : image) text_x text_y word_height word_width w,
    is_empty (word_roi bg text_x text_y word_height word_width) = true ->
    get_word_color bg text_x text_y word_height word_width w = (inl ValueError, w).
Proof.
  intros bg tx ty wh ww w He.
  unfold get_word_color. cbv zeta. fold (word_roi bg tx ty wh ww).
  unfold bind at 1. unfold lift at 1. unfold np_mean_float. rewrite He.
  reflexivity.
Qed.

End WordColor.

Lemma get_word_color_range_witness :
  is_empty (word_roi grey_bg 40 45 10 20) = false /\
  (0 <= np_mean (word_roi grey_bg 40 45 10 20))%Q /\
  exists word_color w',
    get_word_color grey_bg 40 45 10 20 (world_of [100] []) = (inr word_color, w') /\
    0 <= word_color <= Py.int (np_mean (word_roi grey_bg 40 45 10 20) * (2 / 3)) /\
    (inject_Z word_color <= np_mean (word_roi grey_bg 40 45 10 20))%Q.
Proof.
  split; [reflexivity |]. split; [discriminate |].
  apply (@get_word_color_range uniform_imaging grey_bg 40 45 10 20 (world_of [100] [])).
  - reflexivity.
  - discriminate.
Defined.

Lemma get_word_color_empty_roi_witness :
  is_empty (word_roi grey_bg 5 45 10 20) = true /\
  get_word_color grey_bg 5 45 10 20 (world_of [100] []) = (inl ValueError, world_of [100] []).
Proof.
  split; [reflexivity |].
  apply (@get_word_color_empty_roi uniform_imaging grey_bg 5 45 10 20 (world_of [100] [])).
  reflexivity.
Defined.

(* ================================================================== *)
(** * Blur and prydown *)
(* ================================================================== *)

Lemma random_choice_inv {A} (seq : list A) w x w' :
  random_choice seq w = (inr x, w') -> In x seq.
Proof.
  destruct seq as [| x0 rest]; [discriminate |].
  unfold random_choice. intros H. step H r w1 Hr. apply ret_inv in H as [-> _].
  apply nth_In.
  pose proof (Z.mod_pos_bound r (Z.of_nat (List.length (x0 :: rest)))
                ltac:(simpl List.length; lia)).
  lia.
Qed.

(** A draw of [random.uniform(a, b)] lies between its bounds. *)
Lemma random_uniform_total (a b : Q) w :
  exists u w',
    random_uniform a b w = (inr u, w') /\ ((a <= b)%Q -> (a <= u /\ u <= b)%Q).
Proof.
  destruct (py_next_total w) as (r & w' & Hr).
  exists (a + (b - a) * unit_float r)%Q, w'. split.
  - unfold random_uniform. erewrite bind_inr by exact Hr. reflexivity.
  - intros Hab. destruct (unit_float_range r) as [H0 H1].
    assert (0 <= (b - a) * unit_float r)%Q as Ha
        by (apply Qmult_le_0_compat; lra).
    assert ((b - a) * unit_float r <= (b - a) * 1)%Q as Hb
        by (apply Qmult_le_compat_nonneg; split; lra).
    split; lra.
Qed.

Section Blur.
Context {L : Imaging}.

(** The kernel sizes [apply_gauss_blur] chooses from. *)
Definition gauss_kernels (ks : option (list Z)) : list Z :=
  match ks with None => [7; 9; 11; 13] | Some ks => ks end.

Lemma apply_gauss_blur_inv (img out : image) ks w w' :
  apply_gauss_blur img ks w = (inr out, w') ->
  exists ksize sigma,
    In ksize (gauss_kernels ks) /\
    out = cv2_GaussianBlur img ksize sigma /\
    (3 < ksize -> sigma = 0) /\
    (ksize <= 3 -> 0 <= sigma <= 7).
Proof.
  unfold apply_gauss_blur. fold (gauss_kernels ks). intros H.
  step H ksize w1 Hk. apply random_choice_inv in Hk.
  step H sigma w2 Hs. apply ret_inv in H as [-> _].
  exists ksize, sigma. split; [exact Hk |]. split; [reflexivity |].
  destruct (Z.leb_spec ksize 3) as [Hle | Hgt].
  - apply random_choice_inv in Hs. split; [lia |]. intros _.
    simpl in Hs. intuition lia.
  - apply ret_inv in Hs as [-> _]. split; [reflexivity | lia].
Qed.

(** X5: whatever [apply_gauss_blur] returns is the Gaussian blur of the
    input with a kernel size out of the given list (7, 9, 11, 13 by
    default) and of the same shape; sigma is 0 for every kernel larger than
    3 and one of 0 to 7 otherwise. *)
Theorem apply_gauss_blur_result :
  forall (img out : image) ks w w',
    apply_gauss_blur img ks w = (inr out, w') ->
    exists ksize sigma,
      In ksize (gauss_kernels ks) /\
      out = cv2_GaussianBlur img ksize sigma /\
      (3 < ksize -> sigma = 0) /\
      (ksize <= 3 -> 0 <= sigma <= 7) /\
      shape out = shape img.
Proof.
  intros img out ks w w' H.
  apply apply_gauss_blur_inv in H as (ksize & sigma & Hin & -> & H3 & H7).
  exists ksize, sigma. repeat split; try assumption; try (apply H7; assumption).
  apply shape_GaussianBlur.
Qed.

End Blur.

Lemma apply_gauss_blur_result_witness :
  exists ksize sigma,
    In ksize (gauss_kernels (Some [3; 5])) /\
    mkRaster 32 100 128 = cv2_GaussianBlur (mkRaster 32 100 128) ksize sigma /\
    (3 < ksize -> sigma = 0) /\
    (ksize <= 3 -> 0 <= sigma <= 7) /\
    shape (mkRaster 32 100 128) = shape (mkRaster 32 100 128).
Proof.
  apply (@apply_gauss_blur_result uniform_imaging (mkRaster 32 100 128)
           (mkRaster 32 100 128) (Some [3; 5]) (world_of [0; 4] []) (world_of [] [])).
  reflexivity.
Defined.

Section BlurOnOutput.
Context {L : Imaging} {C : Collaborators}.

(** X6: whatever [apply_blur_on_output] returns is either a Gaussian blur
    with kernel 3 (sigma 0 to 7) or kernel 5 (sigma 0), or a box blur with
    kernel 2 or 3. *)
Theorem apply_blur_on_output_result :
  forall (img out : image) w w',
    apply_blur_on_output img w = (inr out, w') ->
    (exists ksize sigma,
        out = cv2_GaussianBlur img ksize sigma /\
        (ksize = 3 /\ 0 <= sigma <= 7 \/ ksize = 5 /\ sigma = 0)) \/
    (exists kernel, out = cv2_blur img kernel /\ (kernel = 2 \/ kernel = 3)).
Proof.
  intros img out w w' H. unfold apply_blur_on_output in H.
  step H gauss w1 Hprob. destruct gauss.
  - left. apply apply_gauss_blur_inv in H as (ksize & sigma & Hin & -> & H3 & H7).
    exists ksize, sigma. split; [reflexivity |].
    simpl in Hin. destruct Hin as [<- | [<- | []]].
    + left. split; [reflexivity | apply H7; lia].
    + right. split; [reflexivity | apply H3; lia].
  - right. unfold apply_norm_blur in H.
    step H kernel w2 Hk. apply ret_inv in H as [-> _].
    apply random_choice_inv in Hk. exists kernel. split; [reflexivity |].
    simpl in Hk. intuition.
Qed.

End BlurOnOutput.

Lemma apply_blur_on_output_result_witness :
  (exists ksize sigma,
      mkRaster 32 100 128 = cv2_GaussianBlur (mkRaster 32 100 128) ksize sigma /\
      (ksize = 3 /\ 0 <= sigma <= 7 \/ ksize = 5 /\ sigma = 0)) \/
  (exists kernel,
      mkRaster 32 100 128 = cv2_blur (mkRaster 32 100 128) kernel /\
      (kernel = 2 \/ kernel = 3)).
Proof.
  apply (@apply_blur_on_output_result uniform_imaging flat_collaborators
           (mkRaster 32 100 128) (mkRaster 32 100 128)
           (world_of [2 ^ 53 - 1; 1] []) (world_of [] [])).
  reflexivity.
Defined.

Section Prydown.
Context {L : Imaging}.
Variable self : Renderer.

Lemma py_int_ge_one (x : Q) : (1 <= x)%Q -> 1 <= Py.int x.
Proof.
  intros H. rewrite py_int_nonneg by lra.
  apply Qfloor_resp_le in H. exact H.
Qed.

(** X7: with a largest shrink factor from 1 up to the smaller side of the
    image, [apply_prydown] returns, and the image it returns has the shape
    of its input: the shrunk copy keeps at least one pixel each way and is
    enlarged back to the original size. *)
Theorem apply_prydown_keeps_shape :
  forall (img : image) w,
    0 < rows img -> 0 < cols img ->
    (1 <= cfg_prydown_max_scale (cfg self))%Q ->
    (cfg_prydown_max_scale (cfg self) <= inject_Z (rows img))%Q ->
    (cfg_prydown_max_scale (cfg self) <= inject_Z (cols img))%Q ->
    exists out w',
      apply_prydown self img w = (inr out, w') /\ shape out = shape img.
Proof.
  intros img w Hr Hc H1 Hmr Hmc.
  destruct (random_uniform_total 1 (cfg_prydown_max_scale (cfg self)) w)
    as (scale & w' & Hu & Hrange).
  destruct (Hrange H1) as [Hlo Hhi].
  assert (~ scale == 0)%Q as Hnz by lra.
  assert (1 <= inject_Z (cols img) / scale)%Q as Hsw
      by (apply Qle_shift_div_l; lra).
  assert (1 <= inject_Z (rows img) / scale)%Q as Hsh
      by (apply Qle_shift_div_l; lra).
  apply py_int_ge_one in Hsw, Hsh.
  set (w1 := Py.int (inject_Z (cols img) / scale)) in *.
  set (h1 := Py.int (inject_Z (rows img) / scale)) in *.
  destruct (@cv2_resize_ok L img w1 h1 INTER_AREA) as [E1 S1];
    [apply is_empty_false; assumption | lia | lia |].
  set (small := resample img w1 h1 INTER_AREA) in *.
  destruct (@cv2_resize_ok L small (cols img) (rows img) INTER_AREA) as [E2 S2];
    [apply shape_not_empty with (h := h1) (w := w1); [exact S1 | lia | lia]
    | exact Hc | exact Hr |].
  eexists. exists w'. split.
  - unfold apply_prydown. erewrite bind_inr by exact Hu.
    unfold bind at 1. unfold lift at 1. rewrite (truediv_nonzero _ Hnz).
    unfold bind at 1. unfold lift at 1. rewrite (truediv_nonzero _ Hnz).
    fold w1. fold h1.
    unfold bind at 1. unfold lift at 1. rewrite E1.
    unfold lift. rewrite E2. reflexivity.
  - rewrite S2. unfold rows, cols. destruct (shape img). reflexivity.
Qed.

End Prydown.

Lemma apply_prydown_keeps_shape_witness :
  exists out w',
    apply_prydown (renderer_of [grey_bg] blur_prydown_cfg 100 32 false)
                  (mkRaster 32 100 128) (world_of [2 ^ 52] [])
    = (inr out, w') /\
    shape out = shape (mkRaster 32 100 128).
Proof.
  apply (@apply_prydown_keeps_shape uniform_imaging
           (renderer_of [grey_bg] blur_prydown_cfg 100 32 false)
           (mkRaster 32 100 128) (world_of [2 ^ 52] []));
    first [reflexivity | discriminate].
Defined.

(* ================================================================== *)
(** * Random backgrounds *)
(* ================================================================== *)


Section RandomBackground.
Context {L : Imaging}.


End RandomBackground.


(* ================================================================== *)
(** * The strict check of [pick_font] *)
(* ================================================================== *)

(** A character the check lets through: the space, or one the font has. *)
Definition char_accepted (supported_chars : list string) (c : string) : Prop :=
  c = " "%string \/ In c supported_chars.

Lemma existsb_eqb_In (c : string) (l : list string) :
  existsb (String.eqb c) l = true <-> In c l.
Proof.
  rewrite existsb_exists. split.
  - intros (x & Hin & E). apply String.eqb_eq in E. subst. exact Hin.
  - intros Hin. exists c. split; [exact Hin | apply String.eqb_refl].
Qed.

(** The check either accepts every character or raises [Exception] at one
    it does not accept; it draws nothing. *)
Lemma check_supported_cases (supported_chars word : list string) w :
  (Forall (char_accepted supported_chars) word /\
   check_supported supported_chars word w = (inr tt, w)) \/
  (Exists (fun c => ~ char_accepted supported_chars c) word /\
   check_supported supported_chars word w = (inl Exception, w)).
Proof.
  induction word as [| c rest IH]; simpl.
  - left. split; [constructor | reflexivity].
  - destruct (String.eqb_spec c " ") as [-> | Hsp].
    + destruct IH as [[Hall E] | [Hex E]].
      * left. split; [constructor; [left; reflexivity | exact Hall] | exact E].
      * right. split; [apply Exists_cons_tl; exact Hex | exact E].
    + destruct (existsb (String.eqb c) supported_chars) eqn:Hin; simpl.
      * apply existsb_eqb_In in Hin.
        destruct IH as [[Hall E] | [Hex E]].
        -- left. split; [constructor; [right; exact Hin | exact Hall] | exact E].
        -- right. split; [apply Exists_cons_tl; exact Hex | exact E].
      * right. split; [| reflexivity].
        apply Exists_cons_hd. intros [Heq | Hc]; [contradiction |].
        apply existsb_eqb_In in Hc. congruence.
Qed.

Section StrictCheck.
Context {L : Imaging}.
Variable self : Renderer.

(** What a successful attempt of [pick_font] went through. *)
Lemma pick_font_body_inv w word font size w' :
  pick_font_body self w = (inr (word, font, size), w') ->
  exists sample font_path font_size w1 w2,
    get_sample (corpus self) w = (inr sample, w1) /\
    word = clip_word self sample /\
    random_choice (fonts self) w1 = (inr font_path, w2) /\
    (strict self = true ->
     exists supported_chars,
       dict_get (font_chars self) font_path = inr supported_chars /\
       Forall (char_accepted supported_chars) (chars word)) /\
    cfg_font_size_min (cfg self) <= font_size <= cfg_font_size_max (cfg self) /\
    font = ImageFont_truetype font_path font_size /\
    size = get_word_size font word.
Proof.
  unfold pick_font_body. intros H.
  step H sample w1 Hsample. step H font_path w2 Hpath. step H u w3 Hcheck.
  step H font_size w4 Hsize. apply ret_inv in H as [H _].
  apply random_randint_range in Hsize.
  assert (word = clip_word self sample) as Ew by congruence.
  assert (font = ImageFont_truetype font_path font_size) as Ef by congruence.
  assert (size = get_word_size font word) as Es by congruence.
  exists sample, font_path, font_size, w1, w2.
  repeat split; try assumption; try lia.
  intros Hstrict. rewrite Hstrict in Hcheck.
  step Hcheck supported w5 Hget. apply lift_inv in Hget as [Hget ->].
  exists supported. split; [exact Hget |].
  destruct (check_supported_cases supported (chars (clip_word self sample)) w2)
    as [[Hall _] | [_ E]].
  - rewrite Ew. exact Hall.
  - rewrite E in Hcheck. discriminate.
Qed.

(** X9: in strict mode, whatever [pick_font] returns has passed the check:
    the font's path is in the pool and in the coverage table, and every
    character of the returned word other than the space is one the table
    lists for that font. *)
Theorem pick_font_strict_supported :
  forall attempts w word font size w',
    strict self = true ->
    pick_font self attempts w = (inr (word, font, size), w') ->
    exists font_path font_size supported_chars,
      In font_path (fonts self) /\
      font = ImageFont_truetype font_path font_size /\
      dict_get (font_chars self) font_path = inr supported_chars /\
      Forall (char_accepted supported_chars) (chars word).
Proof.
  intros attempts w word font size w' Hstrict H.
  unfold pick_font in H. apply retry_inv in H as (w0 & H).
  apply pick_font_body_inv in H
    as (sample & font_path & font_size & w1 & w2 & _ & _ & Hpath & Hchk & _ & Ef & _).
  destruct (Hchk Hstrict) as (supported & Hget & Hall).
  exists font_path, font_size, supported.
  split; [apply random_choice_inv in Hpath; exact Hpath |].
  split; [exact Ef |]. split; [exact Hget | exact Hall].
Qed.

(** X10: whatever [pick_font] returns, strict or not, carries a font of the
    pool at a size within the configured range, and its size is the size of
    the returned word in that font with the offset removed. *)
Theorem pick_font_font_and_size :
  forall attempts w word font size w',
    pick_font self attempts w = (inr (word, font, size), w') ->
    exists font_path font_size,
      In font_path (fonts self) /\
      cfg_font_size_min (cfg self) <= font_size <= cfg_font_size_max (cfg self) /\
      font = ImageFont_truetype font_path font_size /\
      size = (fst (font_getsize font word) - fst (font_getoffset font word),
              snd (font_getsize font word) - snd (font_getoffset font word)).
Proof.
  intros attempts w word font size w' H.
  unfold pick_font in H. apply retry_inv in H as (w0 & H).
  apply pick_font_body_inv in H
    as (sample & font_path & font_size & w1 & w2 & _ & _ & Hpath & _ & Hsize & Ef & Es).
  exists font_path, font_size.
  split; [apply random_choice_inv in Hpath; exact Hpath |].
  split; [exact Hsize |]. split; [exact Ef | exact Es].
Qed.


End StrictCheck.

(** A renderer with the strict check on, over one font that has the
    lower-case letters. *)
Definition strict_renderer : Renderer :=
  Renderer_init feed_corpus ["mono.ttf"%string] [grey_bg] plain_cfg 256 32
                false false false true.

Lemma pick_font_strict_supported_witness :
  exists font_path font_size supported_chars,
    In font_path (fonts strict_renderer) /\
    mkFont "mono.ttf" 20 = ImageFont_truetype font_path font_size /\
    dict_get (font_chars strict_renderer) font_path = inr supported_chars /\
    Forall (char_accepted supported_chars) (chars "ab cd").
Proof.
  apply (@pick_font_strict_supported uniform_imaging strict_renderer 0%nat
           (mkWorld [] [] ["ab cd"%string]) "ab cd"%string (mkFont "mono.ttf" 20)
           (50, 20) (mkWorld [] [] [])); reflexivity.
Defined.

Lemma pick_font_font_and_size_witness :
  exists font_path font_size,
    In font_path (fonts strict_renderer) /\
    cfg_font_size_min (cfg strict_renderer) <= font_size
      <= cfg_font_size_max (cfg strict_renderer) /\
    mkFont "mono.ttf" 20 = ImageFont_truetype font_path font_size /\
    (50, 20) = (fst (font_getsize (mkFont "mono.ttf" 20) "ab cd")
                - fst (font_getoffset (mkFont "mono.ttf" 20) "ab cd"),
                snd (font_getsize (mkFont "mono.ttf" 20) "ab cd")
                - snd (font_getoffset (mkFont "mono.ttf" 20) "ab cd")).
Proof.
  apply (@pick_font_font_and_size uniform_imaging strict_renderer 0%nat
           (mkWorld [] [] ["ab cd"%string]) "ab cd"%string (mkFont "mono.ttf" 20)
           (50, 20) (mkWorld [] [] [])); reflexivity.
Defined.


(** After a rejected sample the next attempt takes the next sample. *)
Example pick_font_retries :
  pick_font strict_renderer 1 (mkWorld [] [] ["aB"%string; "ok"%string])
  = (inr ("ok"%string, mkFont "mono.ttf" 20, (20, 20)), mkWorld [] [] []).
Proof. reflexivity. Qed.

(* ================================================================== *)
(** * More on [crop_img] *)
(* ================================================================== *)

Section CropMore.
Context {L : Imaging}.
Variable self : Renderer.

(** X12: with positive output dimensions the crop rectangle is at least as
    wide and as high as the bounding box of the text: the text box always
    fits the window by size. *)
Theorem crop_rect_covers_bbox :
  forall (pnts : Quad) w x y dw dh w' bx by_ bw bh,
    0 < out_width self -> 0 < out_height self ->
    crop_rect self pnts w = (inr (x, y, dw, dh), w') ->
    cv2_boundingRect pnts = (bx, by_, bw, bh) ->
    bw <= dw /\ bh <= dh.
Proof.
  intros pnts w x y dw dh w' bx by_ bw bh Hw Hh H Eb.
  apply crop_rect_inv in H
    as (bx' & by' & bw' & bh' & d & scale & Eb' & Hd & Hs & -> & ->).
  rewrite Eb in Eb'. injection Eb' as <- <- <- <-.
  apply cv2_boundingRect_positive in Eb as [Hbw Hbh].
  apply crop_scale_inv in Hs as (Hd0 & _ & ->).
  assert (0 < d) as Hdpos.
  { pose proof (Z.div_pos (out_height self) 4 ltac:(lia) ltac:(lia)). lia. }
  set (a := (inject_Z bh / inject_Z d)%Q).
  set (b := (inject_Z bw / inject_Z (out_width self))%Q).
  assert (0 < inject_Z d)%Q as Qd by q2z.
  assert (0 < inject_Z (out_width self))%Q as Qw by q2z.
  assert (inject_Z d <= inject_Z (out_height self))%Q as Qdh by q2z.
  assert (0 <= inject_Z bh)%Q as Qbh by q2z.
  pose proof (py_max_l a b) as Ha. pose proof (py_max_r a b) as Hb.
  split; unfold int_around, np_around; apply round_half_even_ge.
  - apply scaled_ge; [exact Qw | exact Hb].
  - assert (inject_Z bh <= inject_Z d * Py.max a b)%Q as H1
        by (apply scaled_ge; [exact Qd | exact Ha]).
    assert (0 <= Py.max a b)%Q as H2.
    { eapply Qle_trans; [| exact Ha]. unfold a.
      apply Qle_shift_div_l; [exact Qd | lra]. }
    assert (inject_Z d * Py.max a b <= inject_Z (out_height self) * Py.max a b)%Q as H3
        by (apply Qmult_le_compat_r; assumption).
    eapply Qle_trans; [exact H1 | exact H3].
Qed.

(** X13: when the placement height drawn at line 126 is 0, which an output
    height below 4 allows, the division of line 128 raises
    [ZeroDivisionError] and [crop_img] returns nothing. *)
Theorem crop_img_zero_height_draw :
  forall (img : image) (pnts : Quad) w w1,
    draw_dst_height self w = (inr 0, w1) ->
    crop_img self img pnts w = (inl ZeroDivisionError, w1).
Proof.
  intros img pnts w w1 Hd.
  unfold crop_img, crop_rect.
  destruct (cv2_boundingRect pnts) as [[[bx by_] bw] bh].
  unfold bind at 1. unfold bind at 1. rewrite Hd.
  unfold bind at 1. unfold lift at 1. unfold crop_scale.
  rewrite truediv_zero by reflexivity. reflexivity.
Qed.

End CropMore.

Lemma crop_rect_covers_bbox_witness :
  100 <= 160 /\ 20 <= 20.
Proof.
  apply (@crop_rect_covers_bbox uniform_imaging
           (renderer_of [grey_bg] plain_cfg 256 32 false) text_quad
           (world_of [8; 0] []) 150 40 160 20 (world_of [] []) 150 40 100 20);
    reflexivity.
Defined.

Lemma crop_img_zero_height_draw_witness :
  draw_dst_height (renderer_of [grey_bg] plain_cfg 256 3 false) (world_of [4] [])
  = (inr 0, world_of [] []) /\
  crop_img (renderer_of [grey_bg] plain_cfg 256 3 false) (mkRaster 100 400 128)
           text_quad (world_of [4] [])
  = (inl ZeroDivisionError, world_of [] []).
Proof.
  split; [reflexivity |].
  apply (@crop_img_zero_height_draw uniform_imaging
           (renderer_of [grey_bg] plain_cfg 256 3 false) (mkRaster 100 400 128)
           text_quad (world_of [4] []) (world_of [] [])).
  reflexivity.
Defined.

(** The lemma [crop_img_returns] at work on the default output size. *)
Lemma crop_img_returns_witness :
  0 < 160 /\ 0 < 20 /\
  shape (mkRaster 32 256 128)
  = (out_height (renderer_of [grey_bg] plain_cfg 256 32 false),
     out_width (renderer_of [grey_bg] plain_cfg 256 32 false)).
Proof.
  apply (@crop_img_returns uniform_imaging
           (renderer_of [grey_bg] plain_cfg 256 32 false) (mkRaster 100 400 128)
           (mkRaster 32 256 128) text_quad (world_of [8; 0] []) 150 40 160 20
           (world_of [] [])).
  reflexivity.
Defined.

(* ================================================================== *)
(** * Inverting twice *)
(* ================================================================== *)

Section InvertTwice.
Context {L : Imaging}.

(** X14: inverting an image twice gives back every pixel up to the
    difference of the two offsets, at most 19 either way: the two 255 cancel
    and only the noise is left. *)
Theorem reverse_img_twice :
  forall (img once twice : image) w w1 w2 i j v,
    reverse_img img w = (inr once, w1) ->
    reverse_img once w1 = (inr twice, w2) ->
    np_pixel img i j = Some v ->
    exists v', np_pixel twice i j = Some v' /\ (v - 19 <= v' /\ v' <= v + 19)%Q.
Proof.
  intros img once twice w w1 w2 i j v H1 H2 Hv.
  unfold reverse_img in H1, H2.
  step H1 o1 wa Ho1. apply ret_inv in H1 as [-> _].
  step H2 o2 wb Ho2. apply ret_inv in H2 as [-> _].
  apply np_random_randint_range in Ho1, Ho2.
  assert (inject_Z (-19) <= inject_Z (255 + o2) - inject_Z (255 + o1) /\
          inject_Z (255 + o2) - inject_Z (255 + o1) <= inject_Z 19)%Q as [Ha Hb].
  { split; q2z. }
  change (inject_Z (-19)) with (-19 # 1) in Ha. change (inject_Z 19) with 19%Q in Hb.
  remember (inject_Z (255 + o1)) as q1 eqn:E1.
  remember (inject_Z (255 + o2)) as q2 eqn:E2. clear E1 E2 Ho1 Ho2.
  rewrite !pixel_np_rsub, Hv. cbn [option_map].
  eexists. split; [reflexivity |]. split; lra.
Qed.

End InvertTwice.

Lemma reverse_img_twice_witness :
  exists v', np_pixel (mkRaster 1 1 (255 + 9 - (255 - 10 - 100))) 0 0 = Some v' /\
             (100 - 19 <= v' /\ v' <= 100 + 19)%Q.
Proof.
  apply (@reverse_img_twice uniform_imaging (mkRaster 1 1 100)
           (mkRaster 1 1 (255 - 10 - 100)) (mkRaster 1 1 (255 + 9 - (255 - 10 - 100)))
           (world_of [] [0; 19]) (world_of [] [19]) (world_of [] []) 0 0 100);
    reflexivity.
Defined.

(* ================================================================== *)
(** * More on [gen_bg_from_image] *)
(* ================================================================== *)


Section StockBackgroundRefusals.
Context {L : Imaging}.
Variable self : Renderer.

(** X16: [gen_bg_from_image] validates before it draws.  A request that is
    not landscape raises [AssertionError], and a landscape request on an
    empty pool raises [IndexError]; in both cases the generators are left
    as they were. *)
Theorem gen_bg_from_image_refuses :
  forall width height w,
    width <= height \/ bgs self = [] ->
    exists e,
      gen_bg_from_image self width height w = (inl e, w) /\
      (width <= height -> e = AssertionError) /\
      (height < width -> e = IndexError).
Proof.
  intros width height w H. unfold gen_bg_from_image, py_assert.
  destruct (Z.gtb_spec width height) as [Hgt | Hle].
  - destruct H as [H | H]; [lia |].
    exists IndexError. rewrite H. split; [reflexivity |]. split; [lia | reflexivity].
  - exists AssertionError. split; [reflexivity |]. split; [reflexivity | lia].
Qed.

End StockBackgroundRefusals.

Lemma gen_bg_from_image_refuses_witness :
  exists e,
    gen_bg_from_image (renderer_of [grey_bg] plain_cfg 256 32 false) 8 8
                      (world_of [1; 2] [3])
    = (inl e, world_of [1; 2] [3]) /\
    (8 <= 8 -> e = AssertionError) /\ (8 < 8 -> e = IndexError).
Proof.
  apply (@gen_bg_from_image_refuses uniform_imaging
           (renderer_of [grey_bg] plain_cfg 256 32 false) 8 8 (world_of [1; 2] [3])).
  left. lia.
Defined.

(* ================================================================== *)
(** * The text box *)
(* ================================================================== *)

(** The upright rectangle with left-top corner [(x, y)], in the order
    left-top, right-top, right-bottom, left-bottom. *)
Definition rect_quad (x y width height : Z) : Quad :=
  {| left_top := (inject_Z x, inject_Z y);
     right_top := (inject_Z (x + width), inject_Z y);
     right_bottom := (inject_Z (x + width), inject_Z (y + height));
     left_bottom := (inject_Z x, inject_Z (y + height)) |}.

Lemma Qmin_inject_Z (a b : Z) : a <= b -> (Qmin (inject_Z a) (inject_Z b) == inject_Z a)%Q.
Proof. intros H. apply Q.min_l. rewrite <- Zle_Qle. exact H. Qed.

Lemma Qmax_inject_Z (a b : Z) : a <= b -> (Qmax (inject_Z a) (inject_Z b) == inject_Z b)%Q.
Proof. intros H. apply Q.max_r. rewrite <- Zle_Qle. exact H. Qed.

(** [cv2.boundingRect] counts both end pixels: the bounding box of an
    upright rectangle of integer corners is one larger than its extent. *)
Lemma cv2_boundingRect_rect (x y width height : Z) :
  0 <= width -> 0 <= height ->
  cv2_boundingRect (rect_quad x y width height) = (x, y, width + 1, height + 1).
Proof.
  intros Hw Hh. unfold cv2_boundingRect, rect_quad, quad_points, Qmin_list, Qmax_list.
  cbn [map fold_left fst snd left_top right_top right_bottom left_bottom].
  assert (forall a b, a <= b ->
     Qfloor (Qmin (Qmin (Qmin (Qmin (inject_Z a) (inject_Z a)) (inject_Z b))
                        (inject_Z b)) (inject_Z a)) = a) as Hminx.
  { intros a b Hab. transitivity (Qfloor (inject_Z a)); [| apply Qfloor_Z].
    apply Qfloor_comp.
    rewrite (Qmin_inject_Z (Z.le_refl a)), (Qmin_inject_Z Hab), (Qmin_inject_Z Hab).
    apply Qmin_inject_Z. lia. }
  assert (forall a b, a <= b ->
     Qfloor (Qmin (Qmin (Qmin (Qmin (inject_Z a) (inject_Z a)) (inject_Z a))
                        (inject_Z b)) (inject_Z b)) = a) as Hminy.
  { intros a b Hab. transitivity (Qfloor (inject_Z a)); [| apply Qfloor_Z].
    apply Qfloor_comp.
    rewrite (Qmin_inject_Z (Z.le_refl a)), (Qmin_inject_Z (Z.le_refl a)),
      (Qmin_inject_Z Hab).
    apply Qmin_inject_Z. exact Hab. }
  assert (forall a b, a <= b ->
     Qfloor (Qmax (Qmax (Qmax (Qmax (inject_Z a) (inject_Z a)) (inject_Z b))
                        (inject_Z b)) (inject_Z a)) = b) as Hmaxx.
  { intros a b Hab. transitivity (Qfloor (inject_Z b)); [| apply Qfloor_Z].
    apply Qfloor_comp.
    rewrite (Qmax_inject_Z (Z.le_refl a)), (Qmax_inject_Z Hab),
      (Qmax_inject_Z (Z.le_refl b)).
    rewrite Q.max_comm. apply Qmax_inject_Z. exact Hab. }
  assert (forall a b, a <= b ->
     Qfloor (Qmax (Qmax (Qmax (Qmax (inject_Z a) (inject_Z a)) (inject_Z a))
                        (inject_Z b)) (inject_Z b)) = b) as Hmaxy.
  { intros a b Hab. transitivity (Qfloor (inject_Z b)); [| apply Qfloor_Z].
    apply Qfloor_comp.
    rewrite (Qmax_inject_Z (Z.le_refl a)), (Qmax_inject_Z (Z.le_refl a)),
      (Qmax_inject_Z Hab).
    apply Qmax_inject_Z. lia. }
  rewrite (Hminx x (x + width)) by lia. rewrite (Hmaxx x (x + width)) by lia.
  rewrite (Hminy y (y + height)) by lia. rewrite (Hmaxy y (y + height)) by lia.
  repeat f_equal; lia.
Qed.

(** [int(a / 2)] on an integer [a] is the quotient truncated toward zero. *)
Lemma py_int_half (a : Z) : Py.int (inject_Z a / 2) = Z.quot a 2.
Proof. unfold Py.int. simpl. rewrite Z.mul_1_r. reflexivity. Qed.

(** Truncated halving centres: the two margins differ by at most one. *)
Lemma quot_half_centres (a : Z) : 0 <= a -> 0 <= Z.quot a 2 /\ Z.quot a 2 <= a - Z.quot a 2 <= Z.quot a 2 + 1.
Proof.
  intros Ha. rewrite Z.quot_div_nonneg by lia.
  pose proof (Z.div_mod a 2 ltac:(lia)). pose proof (Z.mod_pos_bound a 2 ltac:(lia)).
  pose proof (Z.div_pos a 2 Ha ltac:(lia)). lia.
Qed.

Section TextBox.
Context {L : Imaging} {C : Collaborators}.
Variable self : Renderer.

(** X17: whatever way the word is drawn, the text box [draw_text_on_bg]
    returns is an upright rectangle of integer corners in the order
    left-top, right-top, right-bottom, left-bottom, and the bounding box
    [crop_img] takes of it is one pixel wider and higher than the box. *)
Theorem draw_text_on_bg_box :
  forall (word : string) (font : font) (bg np_img : image) text_box_pnts word_color w w',
    draw_text_on_bg self word font bg w = (inr (np_img, text_box_pnts, word_color), w') ->
    exists x y width height,
      text_box_pnts = rect_quad x y width height /\
      (0 <= width -> 0 <= height ->
       cv2_boundingRect text_box_pnts = (x, y, width + 1, height + 1)).
Proof.
  intros word font bg np_img pnts color w w' H.
  unfold draw_text_on_bg in H.
  step H c w1 Hcolor. step H random_space w2 Hrs.
  step H drawn w3 Hdrawn. destruct drawn as [img [[[tx ty] ww] wh]].
  apply ret_inv in H as [H _].
  exists tx, ty, ww, wh.
  assert (pnts = rect_quad tx ty ww wh) as -> by (unfold rect_quad; congruence).
  split; [reflexivity |]. intros Hw Hh. apply cv2_boundingRect_rect; assumption.
Qed.

(** X18: without random spacing, seamless or not, the text box is the
    footprint of the word (its size with the font's offset removed) with
    its left-top corner at the truncated half of the free space, and the
    ink is the one [get_word_color] drew. *)
Theorem draw_text_on_bg_centred :
  forall (word : string) (font : font) (bg np_img : image) text_box_pnts word_color
         w c w1 w2 w',
    get_word_color bg
      (Z.quot (cols bg - fst (get_word_size font word)) 2)
      (Z.quot (rows bg - snd (get_word_size font word)) 2)
      (snd (get_word_size font word)) (fst (get_word_size font word)) w = (inr c, w1) ->
    apply (cfg_random_space (cfg self)) w1 = (inr false, w2) ->
    draw_text_on_bg self word font bg w = (inr (np_img, text_box_pnts, word_color), w') ->
    word_color = c /\
    text_box_pnts
    = rect_quad (Z.quot (cols bg - fst (get_word_size font word)) 2)
                (Z.quot (rows bg - snd (get_word_size font word)) 2)
                (fst (get_word_size font word)) (snd (get_word_size font word)).
Proof.
  intros word font bg np_img pnts color w c w1 w2 w' Hc Hrs H.
  rewrite <- !py_int_half in *.
  unfold draw_text_on_bg in H. cbv zeta in H.
  fold (rows bg) in H. fold (cols bg) in H.
  erewrite bind_inr in H by exact Hc.
  erewrite bind_inr in H by exact Hrs.
  cbv iota in H.
  step H drawn w3 Hdrawn. destruct drawn as [img [[[tx ty] ww] wh]].
  apply ret_inv in H as [H _].
  assert ((tx, ty, ww, wh)
          = (Py.int (inject_Z (cols bg - fst (get_word_size font word)) / 2),
             Py.int (inject_Z (rows bg - snd (get_word_size font word)) / 2),
             fst (get_word_size font word), snd (get_word_size font word))) as Ebox.
  { step Hdrawn seamless w4 Hsl. destruct seamless.
    - step Hdrawn img' w5 Hseam. apply ret_inv in Hdrawn as [Hd _].
      inversion Hd. reflexivity.
    - apply ret_inv in Hdrawn as [Hd _]. inversion Hd. reflexivity. }
  assert (pnts = rect_quad tx ty ww wh) as Epnts by (unfold rect_quad; congruence).
  assert (color = c) as Ecolor by congruence.
  assert (tx = Py.int (inject_Z (cols bg - fst (get_word_size font word)) / 2) /\
          ty = Py.int (inject_Z (rows bg - snd (get_word_size font word)) / 2) /\
          ww = fst (get_word_size font word) /\ wh = snd (get_word_size font word))
    as (Ex & Ey & Ew & Eh) by (repeat split; congruence).
  rewrite Ex, Ey, Ew, Eh in Epnts.
  split; [exact Ecolor | exact Epnts].
Qed.

(** X19: with random spacing the box is centred on the recomputed size:
    the text starts at the truncated half of the free space on both axes,
    so when the spaced word fits the background its left and right margins
    differ by at most one pixel. *)
Theorem random_space_centred :
  forall (draw draw' : image) (font : font) (word : string) word_color bg_width bg_height
         w text_x text_y width height w',
    draw_text_with_random_space self draw font word word_color bg_width bg_height w
    = (inr (draw', (text_x, text_y, width, height)), w') ->
    text_x = Z.quot (bg_width - width) 2 /\
    text_y = Z.quot (bg_height - height) 2 /\
    (width <= bg_width ->
     0 <= text_x /\ text_x <= bg_width - width - text_x <= text_x + 1).
Proof.
  intros draw draw' font word color bgw bgh w tx ty wd ht w' H.
  unfold draw_text_with_random_space in H.
  destruct (fold_left (measure_char font) (chars word) (0, 0, [], 10 ^ 5))
    as [[[width0 height0] sizes] y_offset].
  step H u w1 Hu. cbv zeta in H. rewrite !py_int_half in H.
  match type of H with
  | context [fold_left ?f ?l ?a] => destruct (fold_left f l a) as [d c_x]
  end.
  apply ret_inv in H as [H _].
  assert (tx = Z.quot (bgw - wd) 2) as Ex by congruence.
  assert (ty = Z.quot (bgh - ht) 2) as Ey by congruence.
  split; [exact Ex |]. split; [exact Ey |].
  intros Hfit. rewrite Ex. apply quot_half_centres. lia.
Qed.

End TextBox.

Lemma draw_text_on_bg_box_witness :
  exists x y width height,
    rect_quad 40 40 20 20 = rect_quad x y width height /\
    (0 <= width -> 0 <= height ->
     cv2_boundingRect (rect_quad 40 40 20 20) = (x, y, width + 1, height + 1)).
Proof.
  apply (@draw_text_on_bg_box uniform_imaging flat_collaborators
           (renderer_of [grey_bg] plain_cfg 256 32 false) "ab"%string
           (mkFont "mono.ttf" 20) grey_bg (mkRaster 100 100 128)
           (rect_quad 40 40 20 20) 7 (world_of [7] []) (world_of [] [])).
  reflexivity.
Defined.

Lemma draw_text_on_bg_centred_witness :
  7 = 7 /\
  rect_quad 40 40 20 20
  = rect_quad (Z.quot (cols grey_bg - fst (get_word_size (mkFont "mono.ttf" 20) "ab")) 2)
              (Z.quot (rows grey_bg - snd (get_word_size (mkFont "mono.ttf" 20) "ab")) 2)
              (fst (get_word_size (mkFont "mono.ttf" 20) "ab"))
              (snd (get_word_size (mkFont "mono.ttf" 20) "ab")).
Proof.
  apply (@draw_text_on_bg_centred uniform_imaging flat_collaborators
           (renderer_of [grey_bg] plain_cfg 256 32 false) "ab"%string
           (mkFont "mono.ttf" 20) grey_bg (mkRaster 100 100 128)
           (rect_quad 40 40 20 20) 7 (world_of [7] []) 7 (world_of [] [])
           (world_of [] []) (world_of [] [])); reflexivity.
Defined.

Lemma random_space_centred_witness :
  13 = Z.quot (32 - 6) 2 /\ 14 = Z.quot (32 - 4) 2 /\
  (6 <= 32 -> 0 <= 13 /\ 13 <= 32 - 6 - 13 <= 13 + 1).
Proof.
  apply (@random_space_centred uniform_imaging
           (renderer_of [grey_bg] spaced_cfg 256 32 false)
           (mkRaster 32 32 200) (mkRaster 32 32 200) (mkFont "mono.ttf" 4) "ab"%string
           0 32 32 (world_of [] [2 ^ 52]) 13 14 6 4 (world_of [] [])).
  reflexivity.
Defined.

